(** * Skill extraction and hybrid ranking: a shallow embedding

    The development follows the Python sources of the resume/job matcher:

    - [utils/enhanced_extractor.py] ([normalize_text], [extract_resume_skills]),
    - [lambda_handler.py] (its copy [extract_skills_from_text]),
    - [utils/ranker.py] ([cos_sim_safe], [compute_final_score]),
    - [streamlit_app.py] (the keyword and recency sub-scores and the
      per-job missing-skill list of the "Find Matches" tab).

    Conventions of the embedding.

    - A Python [str] is a list of code points.  The code points modelled are
      U+0000..U+00FF, carried by [ascii]; on them [str.lower], the classes
      [\w] and [\s] of [re] and [str.split] are given by their Unicode
      tables.  Code points above U+00FF are outside the model.
    - The regular expressions the program builds are sequences of literal
      characters, [\s+], [\b], [(?<!\w)] and [(?!\w)].  They are embedded as
      a list of items with a backtracking matcher that tries alternatives in
      the order of [re].
    - Python [float] is IEEE 754 binary64.  The ranker is written once over
      an interface of arithmetic operations, and read at two instances:
      the kernel's binary64 numbers, which is what the program computes,
      and the rationals, which is the arithmetic without rounding.
    - A Python [set] is a [gset]; [sorted] is a merge sort for the code-point
      order of strings; a [dict] iterated in insertion order is an
      association list. *)

From Stdlib Require Import ZArith QArith Qminmax Lqa Floats.
From Stdlib Require Import Ascii String OrderedTypeEx.
From stdpp Require Import base tactics option list sorting gmap sets strings.

Local Open Scope Z_scope.
Local Open Scope list_scope.

(** ** Python strings on the code points U+0000..U+00FF *)

Module Py.

Abbreviation str := (list ascii).

Definition code (c : ascii) : N := N_of_ascii c.

Definition between (lo hi : N) (c : ascii) : bool :=
  (N.leb lo (code c) && N.leb (code c) hi)%bool.

(** [\w] of [re] on [str] patterns: alphanumeric in Unicode, or the
    underscore. *)
Definition is_word (c : ascii) : bool :=
  (between 48 57 c || between 65 90 c || between 95 95 c
   || between 97 122 c || between 170 170 c || between 178 179 c
   || between 181 181 c || between 185 186 c || between 188 190 c
   || between 192 214 c || between 216 246 c || between 248 255 c)%bool.

(** [\s] of [re], which is also [str.isspace] and the separator class of
    [str.split()]. *)
Definition is_space (c : ascii) : bool :=
  (between 9 13 c || between 28 32 c || between 133 133 c
   || between 160 160 c)%bool.

(** [str.lower], one code point at a time. *)
Definition lower_char (c : ascii) : ascii :=
  if (between 65 90 c || between 192 214 c || between 216 222 c)%bool
  then ascii_of_N (code c + 32)
  else c.

Definition lower (s : str) : str := map lower_char s.

(** [s.replace(old, new)] for a one-character [old]. *)
Definition replace (old : ascii) (new : str) (s : str) : str :=
  flat_map (fun c => if Ascii.eqb c old then new else [c]) s.

(** [s.split()]: the maximal runs of non-space characters. *)
Fixpoint split_go (cur : str) (s : str) : list str :=
  match s with
  | [] => match cur with [] => [] | _ => [rev cur] end
  | c :: s' =>
      if is_space c
      then match cur with
           | [] => split_go [] s'
           | _ => rev cur :: split_go [] s'
           end
      else split_go (c :: cur) s'
  end.

Definition split (s : str) : list str := split_go [] s.

Definition of_string (s : string) : str := list_ascii_of_string s.

(** [s.startswith(prefix)] and [s.endswith(suffix)] *)
Fixpoint startswith (s prefix : str) : bool :=
  match prefix, s with
  | [], _ => true
  | p :: prefix', c :: s' => Ascii.eqb c p && startswith s' prefix'
  | _ :: _, [] => false
  end.

Definition endswith (s suffix : str) : bool :=
  startswith (rev s) (rev suffix).

(** [sub in s] on strings *)
Fixpoint contains (sub s : str) : bool :=
  startswith s sub
  || match s with
     | [] => false
     | _ :: s' => contains sub s'
     end.

(** [s.strip()]: the whitespace at the two ends is dropped. *)
Fixpoint lstrip (s : str) : str :=
  match s with
  | [] => []
  | c :: s' => if is_space c then lstrip s' else s
  end.

Definition rstrip (s : str) : str := rev (lstrip (rev s)).

Definition strip (s : str) : str := rstrip (lstrip s).

End Py.

(** ** The regular expressions of the program *)

Module Re.
Import Py.

Inductive item : Type :=
| Lit (c : ascii)        (* an escaped literal character *)
| Spaces                 (* \s+ *)
| WordBoundary           (* \b *)
| NotAfterWord           (* (?<!\w) *)
| NotBeforeWord.         (* (?!\w) *)

Abbreviation pattern := (list item).

(** [re.escape(s)]: the pattern that matches [s] literally. *)
Definition escape (s : str) : pattern := map Lit s.

Definition word_at (c : option ascii) : bool :=
  match c with Some x => is_word x | None => false end.

(** [\b] holds between [prev] and [next] when exactly one of them is a
    word character; the two ends of the text count as non-word. *)
Definition at_boundary (prev next : option ascii) : bool :=
  xorb (word_at prev) (word_at next).

(** [match_here p prev s] matches [p] at the front of [s], where [prev] is
    the character before [s] in the text.  It gives the length of the
    first match in the order [re] tries them ([\s+] is greedy). *)
Fixpoint match_here (p : pattern) (prev : option ascii) (s : str)
  : option nat :=
  match p with
  | [] => Some O
  | Lit c :: p' =>
      match s with
      | x :: s' =>
          if Ascii.eqb x c then S <$> match_here p' (Some x) s' else None
      | [] => None
      end
  | Spaces :: p' =>
      (fix run (s : str) : option nat :=
         match s with
         | x :: s' =>
             if is_space x
             then match run s' with
                  | Some n => Some (S n)
                  | None => S <$> match_here p' (Some x) s'
                  end
             else None
         | [] => None
         end) s
  | WordBoundary :: p' =>
      if at_boundary prev (head s) then match_here p' prev s else None
  | NotAfterWord :: p' =>
      if word_at prev then None else match_here p' prev s
  | NotBeforeWord :: p' =>
      if word_at (head s) then None else match_here p' prev s
  end.

(** [re.search(p, text)] as a truth value: is there a match at some
    position, tried from left to right. *)
Fixpoint search_from (p : pattern) (prev : option ascii) (s : str) : bool :=
  match match_here p prev s with
  | Some _ => true
  | None =>
      match s with
      | [] => false
      | c :: s' => search_from p (Some c) s'
      end
  end.

Definition search (p : pattern) (text : str) : bool :=
  search_from p None text.

(** [re.sub(p, repl, text)] with a literal replacement: the leftmost
    non-overlapping matches are replaced.  [skip] counts the characters
    of the current match still to be passed over. *)
Fixpoint sub_from (p : pattern) (repl : str) (prev : option ascii)
    (skip : nat) (s : str) : str :=
  match s with
  | [] =>
      match skip, match_here p prev [] with
      | O, Some _ => repl
      | _, _ => []
      end
  | c :: s' =>
      match skip with
      | S k => sub_from p repl (Some c) k s'
      | O =>
          match match_here p prev s with
          | Some (S n) => repl ++ sub_from p repl (Some c) n s'
          | Some O => repl ++ c :: sub_from p repl (Some c) O s'
          | None => c :: sub_from p repl (Some c) O s'
          end
      end
  end.

Definition sub (p : pattern) (repl : str) (text : str) : str :=
  sub_from p repl None O text.

End Re.

(** ** What a match is

    [Matches p prev m rest]: the pattern [p] matches exactly the characters
    [m], when [prev] is the character before them and [rest] is the text
    after them. *)

Module ReSpec.
Import Py Re.

(** The character before the end of [pre], in a text that starts after
    [prev]. *)
Definition before (prev : option ascii) (pre : str) : option ascii :=
  match last pre with
  | Some c => Some c
  | None => prev
  end.

Inductive Matches : pattern -> option ascii -> str -> str -> Prop :=
| M_nil prev rest :
    Matches [] prev [] rest
| M_lit c p prev m rest :
    Matches p (Some c) m rest ->
    Matches (Lit c :: p) prev (c :: m) rest
| M_space_last x p prev m rest :
    is_space x = true ->
    Matches p (Some x) m rest ->
    Matches (Spaces :: p) prev (x :: m) rest
| M_space_more x p prev m rest :
    is_space x = true ->
    Matches (Spaces :: p) (Some x) m rest ->
    Matches (Spaces :: p) prev (x :: m) rest
| M_boundary p prev m rest :
    at_boundary prev (head (m ++ rest)) = true ->
    Matches p prev m rest ->
    Matches (WordBoundary :: p) prev m rest
| M_not_after p prev m rest :
    word_at prev = false ->
    Matches p prev m rest ->
    Matches (NotAfterWord :: p) prev m rest
| M_not_before p prev m rest :
    word_at (head (m ++ rest)) = false ->
    Matches p prev m rest ->
    Matches (NotBeforeWord :: p) prev m rest.

(** The tokens of a phrase, one after the other, separated by runs of
    whitespace. *)
Inductive separated : list str -> str -> Prop :=
| sep_one tok :
    separated [tok] tok
| sep_cons tok ws toks m :
    ws <> [] -> Forall (fun c => is_space c = true) ws ->
    separated toks m ->
    separated (tok :: toks) (tok ++ ws ++ m).

(** The whole-word occurrence of a phrase in a text: its tokens in a row,
    a word boundary before the first and after the last. *)
Definition phrase_occurs (tokens : list str) (text : str) : Prop :=
  exists pre m post,
    text = pre ++ m ++ post
    /\ separated tokens m
    /\ at_boundary (last pre) (head m) = true
    /\ at_boundary (last m) (head post) = true.

(** The occurrence of a phrase as a whole word, with the boundaries read
    as the absence of a word character: the tokens in a row, no word
    character before the first and none after the last. *)
Definition phrase_stands (tokens : list str) (text : str) : Prop :=
  exists pre m post,
    text = pre ++ m ++ post
    /\ separated tokens m
    /\ word_at (last pre) = false
    /\ word_at (head post) = false.

(** An occurrence of [w] that no word character touches. *)
Definition standalone (w : str) (prev : option ascii) (text : str) : Prop :=
  exists pre post,
    text = pre ++ w ++ post
    /\ word_at (before prev pre) = false
    /\ word_at (head post) = false.

End ReSpec.

(** ** [utils/enhanced_extractor.py] *)

(** [sorted] on a set of strings: Python compares [str] by code points,
    which is [String.leb]. *)
Definition str_le (a b : string) : Prop := String.leb a b = true.

#[global] Instance str_le_dec : RelDecision str_le :=
  fun a b => decide (String.leb a b = true).

Definition sorted (X : gset string) : list string :=
  merge_sort str_le (elements X).

Module EnhancedExtractor.
Import Py Re.

Definition SKILL_TAXONOMY_items : list string :=
  [ "python"; "java"; "javascript"; "typescript"; "c"; "c++"; "c#"; "go";
    "ruby"; "php"; "swift"; "kotlin"; "scala"; "r"; "html"; "css";
    "sass"; "bootstrap"; "tailwind css"; "react"; "angular"; "vue.js";
    "next.js"; "node.js"; "express.js"; "django"; "flask"; "spring boot";
    "rest api"; "graphql"; "microservices"; "git"; "github"; "gitlab";
    "bitbucket"; "aws"; "azure"; "gcp"; "docker"; "kubernetes";
    "terraform"; "jenkins"; "ci cd"; "ansible"; "linux"; "bash";
    "shell scripting"; "data analysis"; "data science";
    "machine learning"; "deep learning"; "artificial intelligence";
    "nlp"; "computer vision"; "pandas"; "numpy"; "scikit learn";
    "tensorflow"; "pytorch"; "keras"; "power bi"; "tableau"; "excel";
    "spark"; "hadoop"; "airflow"; "kafka"; "sql"; "mysql"; "postgresql";
    "oracle"; "mongodb"; "cassandra"; "redis"; "dynamodb";
    "cyber security"; "information security"; "network security";
    "penetration testing"; "ethical hacking"; "risk assessment";
    "business analysis"; "requirements gathering";
    "stakeholder management"; "process improvement";
    "project management"; "program management"; "product management";
    "agile"; "scrum"; "kanban"; "waterfall"; "financial analysis";
    "accounting"; "budgeting"; "forecasting"; "risk management";
    "taxation"; "auditing"; "digital marketing"; "seo"; "sem";
    "content marketing"; "email marketing"; "social media marketing";
    "sales"; "business development"; "lead generation"; "crm";
    "recruitment"; "talent acquisition"; "payroll"; "hr operations";
    "employee engagement"; "performance management";
    "operations management"; "supply chain management"; "logistics";
    "clinical research"; "patient care"; "medical coding";
    "healthcare administration"; "teaching"; "curriculum development";
    "instructional design"; "training and development"; "ui design";
    "ux design"; "figma"; "adobe photoshop"; "adobe illustrator";
    "communication"; "leadership"; "problem solving";
    "critical thinking"; "time management"; "team collaboration" ]%string.

(** The set literal [SKILL_TAXONOMY]. *)
Definition SKILL_TAXONOMY : gset string := list_to_set SKILL_TAXONOMY_items.

(** The dict literal [SKILL_ALIASES], in insertion order. *)
Definition SKILL_ALIASES : list (string * string) :=
  [ ("ml", "machine learning");
    ("ai", "artificial intelligence");
    ("js", "javascript");
    ("reactjs", "react");
    ("node", "node.js");
    ("tf", "tensorflow");
    ("ci/cd", "ci cd");
    ("spring-boot", "spring boot");
    ("scikit-learn", "scikit learn");
    ("fp&a", "financial analysis");
    ("seo/sem", "seo");
    ("pm", "project management");
    ("ba", "business analysis") ]%string.

Definition normalize_text (text : str) : str :=
  let text := lower text in
  let text := replace "_" (of_string " ") (replace "-" (of_string " ") text) in
  let text := replace "." (of_string ".") text in
  text.

(** [rf"(?<!\w){re.escape(alias)}(?!\w)"] *)
Definition alias_pattern (alias : string) : pattern :=
  [NotAfterWord] ++ escape (of_string alias) ++ [NotBeforeWord].

(** The loop over [SKILL_ALIASES.items()]. *)
Definition apply_aliases (aliases : list (string * string)) (text : str)
  : str :=
  fold_left
    (fun text '(alias, canonical) =>
       sub (alias_pattern alias) (of_string canonical) text)
    aliases text.

(** [sep.join(ps)] on patterns. *)
Fixpoint join (sep : pattern) (ps : list pattern) : pattern :=
  match ps with
  | [] => []
  | [p] => p
  | p :: ps' => p ++ sep ++ join sep ps'
  end.

(** [r"\b" + r"\s+".join(map(re.escape, skill_tokens)) + r"\b"] *)
Definition skill_pattern (skill : string) : pattern :=
  let skill_tokens := split (of_string skill) in
  [WordBoundary] ++ join [Spaces] (map escape skill_tokens)
    ++ [WordBoundary].

(** The text the taxonomy is searched in. *)
Definition prepare (text : string) : str :=
  apply_aliases SKILL_ALIASES (normalize_text (of_string text)).

(** The loop over [SKILL_TAXONOMY], adding to [found]. *)
Definition find_skills (text : str) : gset string :=
  set_fold
    (fun skill found =>
       if search (skill_pattern skill) text then {[ skill ]} ∪ found
       else found)
    (∅ : gset string) SKILL_TAXONOMY.

Definition extract_resume_skills (text : string) : list string :=
  sorted (find_skills (prepare text)).

End EnhancedExtractor.

(** ** [lambda_handler.py]: the copy of the extractor used for job postings *)

Module LambdaHandler.
Import Py Re.

(** [SKILL_TAXONOMY], [SKILL_ALIASES] and [normalize_text] are repeated in
    this file with the same text as in [enhanced_extractor.py]. *)
Definition SKILL_TAXONOMY : gset string := EnhancedExtractor.SKILL_TAXONOMY.
Definition SKILL_ALIASES : list (string * string) :=
  EnhancedExtractor.SKILL_ALIASES.
Definition normalize_text (text : str) : str :=
  EnhancedExtractor.normalize_text text.

Definition alias_pattern (alias : string) : pattern :=
  [NotAfterWord] ++ escape (of_string alias) ++ [NotBeforeWord].

Definition apply_aliases (aliases : list (string * string)) (text : str)
  : str :=
  fold_left
    (fun text '(alias, canonical) =>
       sub (alias_pattern alias) (of_string canonical) text)
    aliases text.

(** [rf"(?<!\w){re.escape(skill)}(?!\w)"] *)
Definition skill_pattern (skill : string) : pattern :=
  [NotAfterWord] ++ escape (of_string skill) ++ [NotBeforeWord].

Definition prepare (text : string) : str :=
  apply_aliases SKILL_ALIASES (normalize_text (of_string text)).

Definition find_skills (text : str) : gset string :=
  set_fold
    (fun skill found =>
       if search (skill_pattern skill) text then {[ skill ]} ∪ found
       else found)
    (∅ : gset string) SKILL_TAXONOMY.

Definition extract_skills_from_text (text : string) : list string :=
  sorted (find_skills (prepare text)).

End LambdaHandler.

(** ** Checks on the static tables, decided by evaluation *)

Module Checks.
Import Py Re.

(** The character a match must begin with, when the first item of the
    pattern that consumes text is a literal. *)
Fixpoint first_lit (p : pattern) : option ascii :=
  match p with
  | [] => None
  | Lit c :: _ => Some c
  | Spaces :: _ => None
  | (WordBoundary | NotAfterWord | NotBeforeWord) :: p' => first_lit p'
  end.

Definition starts_with_word (p : pattern) : bool := word_at (first_lit p).

(** [normalize_text] acts on each character by itself. *)
Definition norm_char (c : ascii) : ascii :=
  let c := lower_char c in
  let c := if Ascii.eqb c "-" then " "%char else c in
  let c := if Ascii.eqb c "_" then " "%char else c in
  if Ascii.eqb c "." then "."%char else c.

(** A phrase whose first token exists and is not empty. *)
Definition phrase_ok (skill : string) : bool :=
  match split (of_string skill) with
  | (_ :: _) :: _ => true
  | _ => false
  end.

(** The pattern [(?<!\w) L (?!\w)] of an alias, and of a phrase in
    [lambda_handler.py]. *)
Definition lookaround (L : str) : pattern :=
  [NotAfterWord] ++ escape L ++ [NotBeforeWord].

(** [no_start_in c0 prev_word occ]: the character [c0] does not stand in
    [occ] at a place that follows a non-word character ([prev_word] tells
    whether a word character precedes [occ]). *)
Fixpoint no_start_in (c0 : ascii) (prev_word : bool) (occ : str) : bool :=
  match occ with
  | [] => true
  | x :: occ' =>
      (prev_word || negb (Ascii.eqb x c0))
      && no_start_in c0 (is_word x) occ'
  end.

(** [no_seam L o0]: [L] ends in a word character, and no non-word character
    of [L] is followed by [o0]. *)
Fixpoint no_seam (L : str) (o0 : ascii) : bool :=
  match L with
  | [] => true
  | x :: L' =>
      match L' with
      | [] => is_word x
      | y :: _ => (is_word x || negb (Ascii.eqb y o0)) && no_seam L' o0
      end
  end.

(** The substitution of [alias] cannot touch an occurrence of [occ] that
    no word character touches. *)
Definition alias_keeps (occ : str) (alias : string) : bool :=
  match of_string alias, occ with
  | c0 :: L, o0 :: _ =>
      is_word c0 && no_start_in c0 false occ && no_seam (c0 :: L) o0
  | _, _ => false
  end.

(** The tokens of a phrase written with single spaces between them, as
    the taxonomy writes its phrases. *)
Fixpoint rejoin (toks : list str) : str :=
  match toks with
  | [] => []
  | tok :: toks' =>
      match toks' with
      | [] => tok
      | _ :: _ => tok ++ " "%char :: rejoin toks'
      end
  end.

(** A phrase written with single spaces that begins and ends with a word
    character. *)
Definition plain_phrase (skill : string) : bool :=
  let s := of_string skill in
  bool_decide (rejoin (split s) = s) && word_at (head s) && word_at (last s).

End Checks.

(** ** [utils/ranker.py] *)

Module Ranker.

(** The exceptions the ranker can raise. *)
Inductive exn : Type :=
| ValueError (msg : string)
| ZeroDivisionError
| IndexError.

Abbreviation result A := (exn + A)%type.

Definition bind {A B} (m : result A) (k : A -> result B) : result B :=
  match m with
  | inl e => inl e
  | inr a => k a
  end.

Notation "'let*' x ':=' m 'in' k" := (bind m (fun x => k))
  (at level 10, x name, m at level 100, k at level 200, only parsing).

(** A list comprehension whose body can raise: the first exception ends
    it. *)
Fixpoint comprehension {A B} (f : A -> result B) (l : list A)
  : result (list B) :=
  match l with
  | [] => inr []
  | x :: l' =>
      let* y := f x in
      let* ys := comprehension f l' in
      inr (y :: ys)
  end.

(** The arithmetic of Python's [float] as far as the ranker uses it. *)
Class Arith (F : Type) : Type := {
  flit : Q -> F;            (* a decimal literal *)
  fadd : F -> F -> F;
  fmul : F -> F -> F;
  fquot : F -> F -> F;      (* the quotient, divisor not zero *)
  flt : F -> F -> bool;
  feq : F -> F -> bool
}.

Section Generic.
Context {F : Type} `{Arith F}.

(** [a / b] raises on a zero divisor. *)
Definition truediv (a b : F) : result F :=
  if feq b (flit 0) then inl ZeroDivisionError else inr (fquot a b).

(** [min(a, b)] keeps [a] unless [b < a]; [max(a, b)] keeps [a] unless
    [b > a]. *)
Definition py_min (a b : F) : F := if flt b a then b else a.
Definition py_max (a b : F) : F := if flt a b then b else a.

(** [sum(l)] adds from the left, starting at 0. *)
Definition py_sum (l : list F) : F := fold_left fadd l (flit 0).

(** [l[i]] *)
Definition index (l : list F) (i : nat) : result F :=
  match l !! i with
  | Some x => inr x
  | None => inl IndexError
  end.

Definition default_weights : list F :=
  [flit 0.55; flit 0.25; flit 0.10; flit 0.10].

(** [max(0.0, min(1.0, x))] *)
Definition clamp (x : F) : F := py_max (flit 0) (py_min (flit 1) x).

Definition compute_final_score
    (semantic keyword recency popularity : F)
    (weights : option (list F)) : result F :=
  let weights :=
  match weights with
  | None => default_weights
  | Some w => w
  end in
  if negb (Nat.eqb (length weights) 4)
  then inl (ValueError "weights must contain exactly 4 values")
  else
    let total := py_sum weights in
    let* weights :=
      (if flt (flit 0) total
       then comprehension (fun w => truediv w total) weights
       else inr weights) in
    let semantic := clamp semantic in
    let keyword := clamp keyword in
    let recency := clamp recency in
    let popularity := clamp popularity in
    let* w0 := index weights 0 in
    let* w1 := index weights 1 in
    let* w2 := index weights 2 in
    let* w3 := index weights 3 in
    inr (fadd (fadd (fadd (fmul w0 semantic) (fmul w1 keyword))
                 (fmul w2 recency))
           (fmul w3 popularity)).
End Generic.

(** Arithmetic without rounding. *)
#[global] Instance Arith_Q : Arith Q := {|
  flit := fun q => q;
  fadd := Qplus;
  fmul := Qmult;
  fquot := Qdiv;
  flt := fun a b => negb (Qle_bool b a);
  feq := Qeq_bool
|}.

(** Binary64.  A literal with numerator and denominator below 2^53 is
    read as Python reads it: the double nearest to the decimal. *)
Fixpoint float_of_pos (p : positive) : float :=
  match p with
  | xH => 1
  | xO p' => 2 * float_of_pos p'
  | xI p' => 2 * float_of_pos p' + 1
  end%float.

Definition float_of_Z (z : Z) : float :=
  match z with
  | Z0 => 0
  | Zpos p => float_of_pos p
  | Zneg p => - float_of_pos p
  end%float.

Definition float_of_Q (q : Q) : float :=
  (float_of_Z (Qnum q) / float_of_pos (Qden q))%float.

#[global] Instance Arith_float : Arith float := {|
  flit := float_of_Q;
  fadd := PrimFloat.add;
  fmul := PrimFloat.mul;
  fquot := PrimFloat.div;
  flt := PrimFloat.ltb;
  feq := PrimFloat.eqb
|}.

(** [np.dot] of two one-dimensional arrays of equal length, and
    [np.linalg.norm], which is [sqrt(x.dot(x))].  The products are added
    from the left. *)
Fixpoint dot_from (acc : float) (a b : list float) : float :=
  match a, b with
  | x :: a', y :: b' => dot_from (acc + x * y)%float a' b'
  | _, _ => acc
  end.

Definition dot (a b : list float) : float := dot_from 0%float a b.

Definition norm (a : list float) : float := PrimFloat.sqrt (dot a a).

(** [cos_sim_safe] on flat arrays; [np.dot] raises when the lengths
    differ. *)
Definition cos_sim_safe (a b : list float) : result float :=
  let denom := (norm a * norm b)%float in
  if (denom =? 0)%float then inr 0%float
  else if Nat.eqb (length a) (length b)
       then inr (dot a b / denom)%float
       else inl (ValueError "shapes not aligned").

End Ranker.

(** ** [streamlit_app.py]: the sub-scores of the "Find Matches" tab *)

Module App.
Import Ranker.

(** [len(set(resume_skills) & set(job_skills)) / max(1, len(resume_skills))],
    the quotient of two integers without rounding. *)
Definition keyword (resume_skills job_skills : list string) : result Q :=
  let common : gset string :=
    list_to_set resume_skills ∩ list_to_set job_skills in
  truediv (inject_Z (Z.of_nat (size common)))
    (inject_Z (Z.of_nat (Nat.max 1 (length resume_skills)))).

(** The [try] block computes [days_old], or raises: the parser of
    [dateutil] on a string it cannot read, the subtraction on dates it
    cannot subtract.  [None] is a [posted_date] that is absent or
    falsy. *)
Definition recency (posted_date : option (result Z)) : Q :=
  match posted_date with
  | None => 0.5
  | Some (inl _) => 0.5
  | Some (inr days_old) =>
      if days_old <=? 1 then 1.0
      else if days_old <=? 7 then 0.8
      else if days_old <=? 30 then 0.6
      else 0.3
  end%Q.

(** What the [try] block of lines 244-249 can raise. *)
Inductive date_error : Type := TypeError | ParserError.

(** A [datetime]: its wall clock, in microseconds, and the offset of its
    [tzinfo] from UTC; a timezone-naive value has no [tzinfo]. *)
Record datetime : Type := { wall : Z; utcoffset : option Z }.

(** [utc_now()], which is [datetime.now(timezone.utc)], when the clock
    reads [clock] microseconds: always timezone-aware. *)
Definition utc_now (clock : Z) : datetime :=
  {| wall := clock; utcoffset := Some 0 |}.

(** [a - b] on datetimes, as the microseconds of the [timedelta]: two
    aware values are compared as instants, two naive ones by their wall
    clocks, and Python raises [TypeError] ("can't subtract offset-naive
    and offset-aware datetimes") on a naive and an aware one. *)
Definition datetime_sub (a b : datetime) : date_error + Z :=
  match utcoffset a, utcoffset b with
  | Some oa, Some ob => inr ((wall a - oa) - (wall b - ob))
  | None, None => inr (wall a - wall b)
  | _, _ => inl TypeError
  end.

(** [timedelta.days]: a [timedelta] is normalized with its seconds and
    microseconds not negative, so [days] is the floor of the quotient. *)
Definition days (delta : Z) : Z := delta / (86400 * 1000000).

(** The value of [job.get("posted_date")]: [None] (also for a job without
    the key), a string, or a datetime as the driver of the database
    returns it. *)
Inductive posted_field : Type :=
| NoDate
| DateString (s : Py.str)
| Date (d : datetime).

(** [if posted_date:] *)
Definition truthy (posted_date : posted_field) : bool :=
  match posted_date with
  | NoDate => false
  | DateString s => negb (bool_decide (s = []))
  | Date _ => true
  end.

(** Lines 241-251 for one job: [parse] is [dateutil.parser.parse], which
    raises on a string it cannot read, and [clock] is the time at which
    [utc_now()] is called. *)
Definition job_recency (parse : Py.str -> date_error + datetime)
    (clock : Z) (posted_date : posted_field) : Q :=
  let recency := 0.5%Q in
  if truthy posted_date then
    let try :=
      match
        match posted_date with
        | DateString s => parse s
        | Date d => inr d
        | NoDate => inl TypeError
        end
      with
      | inl e => inl e
      | inr posted_date =>
          match datetime_sub (utc_now clock) posted_date with
          | inl e => inl e
          | inr delta => inr (days delta)
          end
      end in
    match try with
    | inr days_old =>
        if days_old <=? 1 then 1.0
        else if days_old <=? 7 then 0.8
        else if days_old <=? 30 then 0.6
        else 0.3
    | inl _ => 0.5
    end%Q
  else recency.

(** [sorted(set(job_skills) - set(resume_skills))] *)
Definition missing (resume_skills job_skills : list string) : list string :=
  sorted (list_to_set job_skills ∖ list_to_set resume_skills).

(** [validate_file]: the size is looked at first, then the extension of
    the lower-cased name. *)
Definition validate_file (file_bytes : list Byte.byte) (filename : Py.str)
  : bool * string :=
  if (10 * 1024 * 1024 <? Z.of_nat (length file_bytes))%Z
  then (false, "File too large (max 10MB)"%string)
  else if negb (Py.endswith (Py.lower filename) (Py.of_string ".pdf")
                || Py.endswith (Py.lower filename) (Py.of_string ".docx"))
       then (false, "Only PDF or DOCX allowed"%string)
       else (true, "OK"%string).

(** The choice of the text extractor in the upload tab:
    [extract_text_from_pdf_bytes(...) if uploaded.name.lower().endswith(".pdf")
     else extract_text_from_docx_bytes(...)]. *)
Inductive text_extractor : Type := PdfExtractor | DocxExtractor.

Definition choose_extractor (filename : Py.str) : text_extractor :=
  if Py.endswith (Py.lower filename) (Py.of_string ".pdf")
  then PdfExtractor
  else DocxExtractor.

(** [popularity = 0.5  # neutral (salary not used)] *)
Definition popularity : Q := 0.5.

(** The score of the tab, written out in the loop:
    [0.55 * semantic + 0.25 * keyword + 0.10 * recency + 0.10 * popularity]. *)
Definition final_score {F : Type} `{Arith F}
    (semantic keyword recency popularity : F) : F :=
  fadd (fadd (fadd (fmul (flit 0.55) semantic) (fmul (flit 0.25) keyword))
          (fmul (flit 0.10) recency))
    (fmul (flit 0.10) popularity).

(** One entry of [results], with the title of its job. *)
Record match_result : Type := {
  job_title : string;
  score : Q;
  mr_semantic : Q;
  mr_keyword : Q;
  mr_missing : list string
}.

(** The body of the loop over the jobs, in arithmetic without rounding;
    [semantic] is what [cos_sim_safe] returned for the job. *)
Definition rank_job (title : string) (semantic : Q)
    (resume_skills job_skills : list string)
    (posted_date : option (result Z)) : result match_result :=
  let* keyword := keyword resume_skills job_skills in
  let recency := recency posted_date in
  let final_score := final_score semantic keyword recency popularity in
  let missing := missing resume_skills job_skills in
  inr {| job_title := title; score := final_score; mr_semantic := semantic;
         mr_keyword := keyword; mr_missing := missing |}.

(** [results.sort(key=lambda x: x["score"], reverse=True)], with the
    scores as the binary64 numbers they are and [<] of [float] as the one
    comparison the sort makes.  Python's sort is stable, also with
    [reverse=True].  When no score is NaN, [<] orders the scores and the
    result of the sort is the one computed here: each entry is put before
    the first entry already placed whose score is lower.  With a NaN among
    the scores the result of [list.sort] depends on the order of its
    merges; that case is not modelled, and the properties of the ranking
    are stated for scores without a NaN. *)
Fixpoint insert_by_score {A : Type} (key : A -> float) (r : A) (l : list A)
  : list A :=
  match l with
  | [] => [r]
  | x :: l' =>
      if (key x <? key r)%float then r :: l
      else x :: insert_by_score key r l'
  end.

Definition sort_by_score {A : Type} (key : A -> float) (results : list A)
  : list A :=
  fold_left (fun placed r => insert_by_score key r placed) results [].

(** [a] may stand before [b]: its score is not lower. *)
Definition by_score {A : Type} (key : A -> float) (a b : A) : Prop :=
  (key b <=? key a)%float = true.

(** The entries whose score equals [q], in their order. *)
Definition with_score {A : Type} (key : A -> float) (q : float) (l : list A)
  : list A :=
  List.filter (fun x => (key x =? q)%float) l.

Definition TOP_K : nat := 20.

(** [results.sort(...); top = results[:TOP_K]] *)
Definition top_matches {A : Type} (key : A -> float) (results : list A)
  : list A :=
  take TOP_K (sort_by_score key results).








(** [all_missing = [skill for r in top for skill in r["missing"]]] *)
Definition all_missing (top : list match_result) : list string :=
  flat_map mr_missing top.

End App.

(** * Properties *)

(** ** The order of [sorted] *)

Section StringOrder.

Lemma str_le_iff (a b : string) :
  str_le a b <-> a = b \/ String_as_OT.lt a b.
Proof.
  unfold str_le, String.leb.
  destruct (String.compare a b) eqn:E.
  - apply String_as_OT.cmp_eq in E. tauto.
  - apply String_as_OT.cmp_lt in E. tauto.
  - split; [discriminate|].
    intros [->|Hlt].
    + assert (String.compare b b = Eq) by (now apply String_as_OT.cmp_eq).
      congruence.
    + apply String_as_OT.cmp_lt in Hlt.
      unfold String_as_OT.cmp in Hlt. congruence.
Qed.

#[global] Instance str_le_total : Total str_le.
Proof. intros a b. apply String.leb_total. Qed.

#[global] Instance str_le_trans : Transitive str_le.
Proof.
  intros a b c Hab Hbc.
  apply str_le_iff in Hab, Hbc. apply str_le_iff.
  destruct Hab as [->|Hab]; [assumption|].
  destruct Hbc as [<-|Hbc]; [now right|].
  right. eapply String_as_OT.lt_trans; eassumption.
Qed.

#[global] Instance str_le_antisym : AntiSymm (=) str_le.
Proof. intros a b. apply String.leb_antisym. Qed.

Lemma sorted_StronglySorted (X : gset string) :
  StronglySorted str_le (sorted X).
Proof. apply StronglySorted_merge_sort; apply _. Qed.

Lemma sorted_Permutation (X : gset string) : sorted X ≡ₚ elements X.
Proof. apply merge_sort_Permutation. Qed.

Lemma sorted_NoDup (X : gset string) : NoDup (sorted X).
Proof. rewrite sorted_Permutation. apply NoDup_elements. Qed.

Lemma elem_of_sorted (X : gset string) (x : string) :
  x ∈ sorted X <-> x ∈ X.
Proof. rewrite sorted_Permutation. apply elem_of_elements. Qed.

(** A sorted duplicate-free list is determined by its elements. *)
Lemma sorted_unique (X : gset string) (l : list string) :
  StronglySorted str_le l -> NoDup l -> (forall x, x ∈ l <-> x ∈ X) ->
  sorted X = l.
Proof.
  intros Hs Hn Hl.
  apply (StronglySorted_unique str_le); auto using sorted_StronglySorted.
  apply NoDup_Permutation; auto using sorted_NoDup.
  intros x. rewrite elem_of_sorted. symmetry. apply Hl.
Qed.

End StringOrder.

(** ** The sub-scores of the "Find Matches" tab *)

Section AppFacts.
Import Ranker App.

Lemma truediv_Q_pos (a b : Q) :
  (0 < b)%Q -> truediv a b = inr (a / b)%Q.
Proof.
  intros Hb. unfold truediv. cbn [feq flit Arith_Q fquot].
  destruct (Qeq_bool b 0) eqn:E; [|reflexivity].
  apply Qeq_bool_iff in E. rewrite E in Hb.
  exfalso. revert Hb. apply Qlt_irrefl.
Qed.

Lemma ratio_bounds (n d : nat) :
  (n <= d)%nat -> (1 <= d)%nat ->
  (0 <= inject_Z (Z.of_nat n) / inject_Z (Z.of_nat d) <= 1)%Q.
Proof.
  intros Hnd Hd.
  assert (Hpos : (0 < inject_Z (Z.of_nat d))%Q).
  { change 0%Q with (inject_Z 0). rewrite <- Zlt_Qlt. lia. }
  split.
  - apply Qle_shift_div_l; [assumption|].
    rewrite Qmult_0_l. change 0%Q with (inject_Z 0).
    rewrite <- Zle_Qle. lia.
  - apply Qle_shift_div_r; [assumption|].
    rewrite Qmult_1_l. rewrite <- Zle_Qle. lia.
Qed.

Lemma keyword_value (R J : list string) :
  keyword R J =
    inr (inject_Z (Z.of_nat (size (list_to_set R ∩ list_to_set J : gset string)))
         / inject_Z (Z.of_nat (Nat.max 1 (length R))))%Q.
Proof.
  unfold keyword. apply truediv_Q_pos.
  change 0%Q with (inject_Z 0). rewrite <- Zlt_Qlt. lia.
Qed.

Lemma size_list_to_set_le (l : list string) :
  (size (list_to_set l : gset string) <= length l)%nat.
Proof.
  induction l as [|x l IH]; cbn [list_to_set length].
  - rewrite size_empty. lia.
  - rewrite size_union_alt, size_singleton.
    assert (size (list_to_set l ∖ {[x]} : gset string)
            <= size (list_to_set l : gset string))%nat
      by (apply subseteq_size; set_solver).
    lia.
Qed.

Lemma common_le_length (R J : list string) :
  (size (list_to_set R ∩ list_to_set J : gset string) <= length R)%nat.
Proof.
  etransitivity; [|apply size_list_to_set_le].
  apply subseteq_size. set_solver.
Qed.

(** C7: for a resume skill set [R] (a list without repetition, as the
    extractor stores it) and job skills [J], the keyword sub-score is
    defined (the division does not raise) and equals
    |R ∩ J| / max(1, |R|); it lies in [0, 1]; it is 0 for an empty
    resume; it is not symmetric in its arguments; resume {python, sql}
    against job {python, aws} gives 1/2. *)
Theorem keyword_overlap_fraction (R J : list string) :
  NoDup R ->
  exists q : Q,
    keyword R J = inr q
    /\ (q == inject_Z (Z.of_nat
               (size (list_to_set R ∩ list_to_set J : gset string)))
             / inject_Z (Z.of_nat
                 (Nat.max 1 (size (list_to_set R : gset string)))))%Q
    /\ (0 <= q <= 1)%Q
    /\ (R = [] -> (q == 0)%Q)
    /\ keyword ["python"; "sql"]%string ["python"; "aws"]%string
       = inr (1 # 2)%Q
    /\ keyword ["python"]%string ["python"; "sql"]%string = inr (1 # 1)%Q
    /\ keyword ["python"; "sql"]%string ["python"]%string = inr (1 # 2)%Q.
Proof.
  intros HR. eexists. split; [apply keyword_value|].
  split; [|split; [|split]].
  - rewrite (size_list_to_set R HR). reflexivity.
  - apply ratio_bounds; [|lia].
    pose proof (common_le_length R J). lia.
  - intros ->.
    assert (E : size (list_to_set [] ∩ list_to_set J : gset string) = 0%nat)
      by (apply size_empty_iff; set_solver).
    rewrite E. reflexivity.
  - repeat split; vm_compute; reflexivity.
Qed.

Lemma keyword_overlap_fraction_witness :
  NoDup ["python"; "sql"]%string
  /\ exists q : Q,
      keyword ["python"; "sql"]%string ["python"; "aws"]%string = inr q
      /\ (0 <= q <= 1)%Q.
Proof.
  assert (H : NoDup ["python"; "sql"]%string) 
    by (apply (bool_decide_unpack _); vm_compute; exact I).
  split; [exact H|].
  destruct (keyword_overlap_fraction
              ["python"; "sql"]%string ["python"; "aws"]%string H)
    as (q & Hq & _ & Hb & _).
  exists q. split; assumption.
Defined.

(** The bands of the recency sub-score, on what the [try] block yields:
    1.0 up to one day, 0.8 up to seven, 0.6 up to thirty, 0.3 beyond, and
    0.5 without a date or after an exception. *)
Lemma recency_bands (days_old : Z) (e : exn) :
  (days_old <= 1 -> recency (Some (inr days_old)) = 1.0%Q)
  /\ (1 < days_old <= 7 -> recency (Some (inr days_old)) = 0.8%Q)
  /\ (7 < days_old <= 30 -> recency (Some (inr days_old)) = 0.6%Q)
  /\ (30 < days_old -> recency (Some (inr days_old)) = 0.3%Q)
  /\ recency None = 0.5%Q
  /\ recency (Some (inl e)) = 0.5%Q.
Proof.
  unfold recency.
  repeat split; try reflexivity; intros;
    repeat match goal with
           | |- context [Z.leb ?a ?b] => destruct (Z.leb_spec a b); try lia
           end; reflexivity.
Qed.

(** Lines 241-251 on a date that is timezone-aware: the bands of
    [recency], at the age in whole days. *)
Lemma job_recency_aware parse (clock w off : Z) :
  job_recency parse clock (Date {| wall := w; utcoffset := Some off |})
  = recency (Some (inr ((clock - (w - off)) / (86400 * 1000000)))).
Proof.
  unfold job_recency, recency, datetime_sub, utc_now, days. cbn.
  rewrite Z.sub_0_r. reflexivity.
Qed.

(** C6 fails on the code.  A job read from the database has a
    timezone-naive [posted_date] (line 33 opens the client without
    [tz_aware]), and so has an ISO string without an offset once parsed:
    [utc_now() - posted_date] raises [TypeError], the bare [except] takes
    it, and the recency is 0.5 whatever the age of the job; at age 0 the
    claim says 1.0.  [daily_refresh] (lines 73-75) puts UTC on such a date
    before it subtracts; on a date that is timezone-aware these lines give
    the bands of the claim. *)
Theorem recency_naive_date_is_neutral :
  (forall parse clock w,
      job_recency parse clock (Date {| wall := w; utcoffset := None |})
      = 0.5%Q)
  /\ (forall parse clock s w,
        parse s = inr {| wall := w; utcoffset := None |} ->
        job_recency parse clock (DateString s) = 0.5%Q)
  /\ (forall parse clock,
        job_recency parse clock (Date {| wall := clock; utcoffset := None |})
        = 0.5%Q
        /\ job_recency parse clock
             (Date {| wall := clock; utcoffset := Some 0 |}) = 1.0%Q)
  /\ (forall parse clock w off days_old,
        days_old = (clock - (w - off)) / (86400 * 1000000) ->
        let r := job_recency parse clock
                   (Date {| wall := w; utcoffset := Some off |}) in
        (days_old <= 1 -> r = 1.0%Q)
        /\ (1 < days_old <= 7 -> r = 0.8%Q)
        /\ (7 < days_old <= 30 -> r = 0.6%Q)
        /\ (30 < days_old -> r = 0.3%Q))
  /\ (forall parse clock s e,
        job_recency parse clock NoDate = 0.5%Q
        /\ job_recency parse clock (DateString []) = 0.5%Q
        /\ (parse s = inl e -> job_recency parse clock (DateString s) = 0.5%Q)).
Proof.
  split; [reflexivity|].
  split.
  { intros parse clock s w Hp. unfold job_recency.
    destruct (truthy (DateString s)); [|reflexivity].
    rewrite Hp. reflexivity. }
  split.
  { intros parse clock. split; [reflexivity|].
    rewrite job_recency_aware.
    replace (clock - (clock - 0)) with 0 by lia. reflexivity. }
  split.
  { intros parse clock w off days_old -> r. subst r.
    rewrite job_recency_aware.
    pose proof (recency_bands ((clock - (w - off)) / (86400 * 1000000))
                  ZeroDivisionError) as (H1 & H2 & H3 & H4 & _).
    auto. }
  intros parse clock s e. split; [reflexivity|]. split; [reflexivity|].
  intros Hp. unfold job_recency.
  destruct (truthy (DateString s)); [|reflexivity].
  rewrite Hp. reflexivity.
Qed.

(** C9: the per-job missing-skill list is the set difference of the job
    skills and the resume skills, as the one list that is sorted, has no
    repetition and has these elements. *)
Theorem missing_is_sorted_difference (R J : list string) :
  StronglySorted str_le (missing R J)
  /\ NoDup (missing R J)
  /\ (forall x, x ∈ missing R J <-> x ∈ J /\ x ∉ R)
  /\ (forall l : list string,
        StronglySorted str_le l -> NoDup l ->
        (forall x, x ∈ l <-> x ∈ J /\ x ∉ R) -> missing R J = l)
  /\ missing ["python"]%string ["python"; "sql"]%string = ["sql"]%string.
Proof.
  unfold missing. split; [apply sorted_StronglySorted|].
  split; [apply sorted_NoDup|].
  split; [intros x; rewrite elem_of_sorted; set_solver|].
  split; [|vm_compute; reflexivity].
  intros l Hs Hn Hl. apply sorted_unique; auto.
  intros x. rewrite Hl. set_solver.
Qed.

End AppFacts.

(** ** The ranker *)

Section RankerGeneric.
Import Ranker.
Context {F : Type} `{Arith F}.

(** The one law of the arithmetic the scorer relies on: a number above
    zero is not zero. *)
Hypothesis pos_not_zero : forall x : F, flt (flit 0) x = true -> feq x (flit 0) = false.

Lemma compute_final_score_length (s k r p : F) (w : list F) :
  length w <> 4%nat ->
  compute_final_score s k r p (Some w)
  = inl (ValueError "weights must contain exactly 4 values").
Proof.
  intros Hw. unfold compute_final_score.
  destruct (Nat.eqb_spec (length w) 4); [contradiction|reflexivity].
Qed.

Lemma compute_final_score_normalized (s k r p w0 w1 w2 w3 : F) :
  let total := py_sum [w0; w1; w2; w3] in
  flt (flit 0) total = true ->
  compute_final_score s k r p (Some [w0; w1; w2; w3])
  = inr (fadd (fadd (fadd (fmul (fquot w0 total) (clamp s))
                       (fmul (fquot w1 total) (clamp k)))
                 (fmul (fquot w2 total) (clamp r)))
           (fmul (fquot w3 total) (clamp p))).
Proof.
  intros total Ht. unfold compute_final_score. cbn [length Nat.eqb negb].
  fold total. rewrite Ht.
  cbn [comprehension bind]. unfold truediv.
  rewrite (pos_not_zero _ Ht). reflexivity.
Qed.

Lemma compute_final_score_raw (s k r p w0 w1 w2 w3 : F) :
  flt (flit 0) (py_sum [w0; w1; w2; w3]) = false ->
  compute_final_score s k r p (Some [w0; w1; w2; w3])
  = inr (fadd (fadd (fadd (fmul w0 (clamp s)) (fmul w1 (clamp k)))
                 (fmul w2 (clamp r)))
           (fmul w3 (clamp p))).
Proof.
  intros Ht. unfold compute_final_score. cbn [length Nat.eqb negb].
  rewrite Ht. reflexivity.
Qed.

Lemma compute_final_score_four (s k r p : F) (w : list F) :
  length w = 4%nat -> exists res, compute_final_score s k r p (Some w) = inr res.
Proof.
  intros Hw.
  destruct w as [|w0 [|w1 [|w2 [|w3 [|]]]]]; try discriminate.
  destruct (flt (flit 0) (py_sum [w0; w1; w2; w3])) eqn:E.
  - eexists. apply compute_final_score_normalized. exact E.
  - eexists. apply compute_final_score_raw. exact E.
Qed.

(** The sub-scores enter the result through [clamp] only. *)
Lemma compute_final_score_clamp (s s' k k' r r' p p' : F) w :
  clamp s = clamp s' -> clamp k = clamp k' -> clamp r = clamp r' ->
  clamp p = clamp p' ->
  compute_final_score s k r p w = compute_final_score s' k' r' p' w.
Proof.
  intros Hs Hk Hr Hp. unfold compute_final_score.
  rewrite Hs, Hk, Hr, Hp. reflexivity.
Qed.

End RankerGeneric.

Section RankerFloat.
Import Ranker.

Lemma Prim2SF_zero : Prim2SF 0%float = S754_zero false.
Proof. reflexivity. Qed.

Lemma float_ltb_leb (x y : float) :
  (x <? y)%float = true -> (x <=? y)%float = true.
Proof.
  rewrite FloatAxioms.ltb_spec, FloatAxioms.leb_spec. unfold SFltb, SFleb.
  destruct (SFcompare _ _) as [[]|]; congruence.
Qed.

Lemma float_pos_not_zero (x : float) :
  flt (flit 0) x = true -> feq x (flit 0) = false.
Proof.
  change (flt (flit 0) x) with (0 <? x)%float.
  change (feq x (flit 0)) with (x =? 0)%float.
  rewrite FloatAxioms.ltb_spec, FloatAxioms.eqb_spec, Prim2SF_zero. unfold SFltb, SFeqb.
  destruct (Prim2SF x) as [[]|[]| |[] m e]; cbn; congruence.
Qed.

Lemma float_clamp_cases (x : float) :
  clamp x = 0%float \/ clamp x = 1%float
  \/ (clamp x = x /\ (0 <? x)%float = true /\ (x <? 1)%float = true).
Proof.
  unfold clamp, py_min, py_max.
  change (flit (F:=float) 0) with 0%float.
  change (flit (F:=float) 1) with 1%float.
  change (@flt float _) with PrimFloat.ltb.
  destruct (x <? 1)%float eqn:E1.
  - destruct (0 <? x)%float eqn:E0; auto.
  - right; left. reflexivity.
Qed.

Lemma float_clamp_bounds (x : float) :
  (0 <=? clamp x)%float = true /\ (clamp x <=? 1)%float = true.
Proof.
  destruct (float_clamp_cases x) as [->|[->|(-> & H0 & H1)]].
  - split; reflexivity.
  - split; reflexivity.
  - split; apply float_ltb_leb; assumption.
Qed.

End RankerFloat.

Section RankerExact.
Import Ranker.
Local Open Scope Q_scope.

Lemma Q_pos_not_zero (x : Q) :
  flt (flit 0) x = true -> feq x (flit 0) = false.
Proof.
  cbn [flt feq flit Arith_Q]. intros Hx.
  destruct (Qeq_bool x 0) eqn:E; [|reflexivity].
  apply Qeq_bool_iff in E.
  assert (Hle : Qle_bool x 0 = true) by (apply Qle_bool_iff; rewrite E; apply Qle_refl).
  rewrite Hle in Hx. discriminate.
Qed.

Lemma Q_flt_iff (a b : Q) : flt a b = true <-> a < b.
Proof.
  cbn [flt Arith_Q]. rewrite negb_true_iff.
  destruct (Qle_bool b a) eqn:E.
  - apply Qle_bool_iff in E. split; [discriminate|]. intros Hlt.
    exfalso. apply (Qlt_not_le _ _ Hlt E).
  - split; [|reflexivity]. intros _. apply Qnot_le_lt. intros Hle.
    apply Qle_bool_iff in Hle. congruence.
Qed.

Lemma Q_clamp_cases (x : Q) :
  (clamp x = 0 /\ x <= 0) \/ (clamp x = 1 /\ 1 <= x)
  \/ (clamp x = x /\ 0 < x < 1).
Proof.
  unfold clamp, py_min, py_max. cbn [flit Arith_Q].
  destruct (flt x 1) eqn:E1.
  - apply Q_flt_iff in E1.
    destruct (flt 0 x) eqn:E0.
    + apply Q_flt_iff in E0. right; right. auto.
    + left. split; [reflexivity|].
      apply Qnot_lt_le. intros Hlt. apply Q_flt_iff in Hlt. congruence.
  - right; left. split; [reflexivity|].
    apply Qnot_lt_le. intros Hlt. apply Q_flt_iff in Hlt. congruence.
Qed.

Lemma Q_clamp_bounds (x : Q) : 0 <= clamp x <= 1.
Proof.
  destruct (Q_clamp_cases x) as [[-> _]|[[-> _]|[-> [H0 H1]]]]; lra.
Qed.

Lemma Q_clamp_spec (x : Q) :
  (x <= 0 -> clamp x == 0) /\ (1 <= x -> clamp x == 1)
  /\ (0 <= x <= 1 -> clamp x == x).
Proof.
  destruct (Q_clamp_cases x) as [[-> H]|[[-> H]|[-> [H0 H1]]]];
    repeat split; intros; lra.
Qed.

Lemma Q_py_sum4 (w0 w1 w2 w3 : Q) :
  py_sum [w0; w1; w2; w3] == w0 + w1 + w2 + w3.
Proof. unfold py_sum. cbn. ring. Qed.

Lemma Q_scaled_le (a c : Q) : 0 <= a -> 0 <= c <= 1 -> 0 <= a * c <= a.
Proof. intros Ha [Hc0 Hc1]. split; nra. Qed.

Lemma Q_normalized_nonneg (w t : Q) : 0 <= w -> 0 < t -> 0 <= w / t.
Proof.
  intros Hw Ht. apply Qle_shift_div_l; [assumption|]. lra.
Qed.

Lemma Q_normalized_sum (w0 w1 w2 w3 t : Q) :
  0 < t -> t == w0 + w1 + w2 + w3 ->
  w0 / t + w1 / t + w2 / t + w3 / t == 1.
Proof.
  intros Ht Hsum.
  assert (Hne : ~ t == 0) by lra.
  transitivity ((w0 + w1 + w2 + w3) / t); [field; assumption|].
  rewrite <- Hsum. field. assumption.
Qed.

Lemma Q_weighted_bounds (a0 a1 a2 a3 c0 c1 c2 c3 : Q) :
  0 <= a0 -> 0 <= a1 -> 0 <= a2 -> 0 <= a3 ->
  a0 + a1 + a2 + a3 == 1 ->
  0 <= c0 <= 1 -> 0 <= c1 <= 1 -> 0 <= c2 <= 1 -> 0 <= c3 <= 1 ->
  0 <= a0 * c0 + a1 * c1 + a2 * c2 + a3 * c3 <= 1.
Proof.
  intros H0 H1 H2 H3 Hs C0 C1 C2 C3.
  pose proof (Q_scaled_le a0 c0 H0 C0).
  pose proof (Q_scaled_le a1 c1 H1 C1).
  pose proof (Q_scaled_le a2 c2 H2 C2).
  pose proof (Q_scaled_le a3 c3 H3 C3).
  lra.
Qed.

End RankerExact.

Section RankerClaims.
Import Ranker.

(** C1, as the code has it.  For four weights with a positive sum,
    [compute_final_score] returns the sum of the sub-scores, each clamped
    into [0, 1], weighted by the weights divided by their sum; the
    normalized weights add up to 1.  When no weight is negative the result,
    computed without rounding, lies in [0, 1].  A sub-score of 1.5 or -0.5
    acts as 1.0 or 0.0.  In binary64 too the result is that weighted sum,
    every clamped sub-score lies in [0, 1], 1.5 and -0.5 act as 1.0 and
    0.0, and the default weights with all sub-scores 1 give exactly 1.0. *)
Theorem final_score_weighted_sum (w0 w1 w2 w3 s k r p : Q) :
  (0 < w0 + w1 + w2 + w3)%Q ->
  exists res : Q,
    let total := py_sum [w0; w1; w2; w3] in
    compute_final_score s k r p (Some [w0; w1; w2; w3]) = inr res
    /\ res = (w0 / total * clamp s + w1 / total * clamp k
              + w2 / total * clamp r + w3 / total * clamp p)%Q
    /\ (w0 / total + w1 / total + w2 / total + w3 / total == 1)%Q
    /\ ((0 <= w0)%Q -> (0 <= w1)%Q -> (0 <= w2)%Q -> (0 <= w3)%Q ->
        (0 <= res <= 1)%Q)
    /\ (forall x : Q,
          (0 <= clamp x <= 1)%Q
          /\ ((x <= 0)%Q -> (clamp x == 0)%Q)
          /\ ((1 <= x)%Q -> (clamp x == 1)%Q)
          /\ ((0 <= x <= 1)%Q -> (clamp x == x)%Q))
    /\ (forall (k r p : Q) w,
          compute_final_score 1.5%Q k r p w = compute_final_score 1%Q k r p w
          /\ compute_final_score (-0.5)%Q k r p w
             = compute_final_score 0%Q k r p w)
    /\ (forall w0 w1 w2 w3 s k r p : float,
          let total := py_sum [w0; w1; w2; w3] in
          (0 <? total)%float = true ->
          compute_final_score s k r p (Some [w0; w1; w2; w3])
          = inr (w0 / total * clamp s + w1 / total * clamp k
                 + w2 / total * clamp r + w3 / total * clamp p)%float)
    /\ (forall x : float,
          (0 <=? clamp x)%float = true /\ (clamp x <=? 1)%float = true)
    /\ (forall (k r p : float) w,
          compute_final_score 1.5%float k r p w
          = compute_final_score 1%float k r p w
          /\ compute_final_score (-0.5)%float k r p w
             = compute_final_score 0%float k r p w)
    /\ compute_final_score 1%float 1%float 1%float 1%float None
       = inr 1%float
    /\ compute_final_score 1%float 1%float 1%float 1%float
         (Some default_weights) = inr 1%float.
Proof.
  intros Hsum.
  pose proof (Q_py_sum4 w0 w1 w2 w3) as Ht.
  assert (Hpos : (0 < py_sum [w0; w1; w2; w3])%Q) by (rewrite Ht; exact Hsum).
  eexists. cbv zeta.
  split.
  { apply (compute_final_score_normalized Q_pos_not_zero).
    apply Q_flt_iff. exact Hpos. }
  split; [reflexivity|].
  split; [apply Q_normalized_sum; assumption|].
  split.
  { intros H0 H1 H2 H3.
    apply Q_weighted_bounds;
      auto using Q_normalized_nonneg, Q_clamp_bounds, Q_normalized_sum. }
  split.
  { intros x. split; [apply Q_clamp_bounds|apply Q_clamp_spec]. }
  split.
  { intros; split; apply compute_final_score_clamp; reflexivity. }
  split.
  { intros; apply (compute_final_score_normalized float_pos_not_zero).
    assumption. }
  split; [exact float_clamp_bounds|].
  split.
  { intros; split; apply compute_final_score_clamp; reflexivity. }
  split; vm_compute; reflexivity.
Qed.

Lemma final_score_weighted_sum_witness :
  (0 < 0.55 + 0.25 + 0.10 + 0.10)%Q
  /\ exists res : Q,
      compute_final_score 1%Q 1%Q 1%Q 1%Q
        (Some [0.55; 0.25; 0.10; 0.10]%Q) = inr res
      /\ (0 <= res <= 1)%Q.
Proof.
  assert (H : (0 < 0.55 + 0.25 + 0.10 + 0.10)%Q) by reflexivity.
  split; [exact H|].
  destruct (final_score_weighted_sum 0.55 0.25 0.10 0.10 1 1 1 1 H)
    as (res & Hres & _ & _ & Hb & _).
  exists res. split; [exact Hres|].
  apply Hb; discriminate.
Defined.

(** C1, as the claim has it, fails at the weights [2, -1, 0, 0], whose sum
    is positive: with sub-scores (1, 0, 0, 0) the result is 2. *)
Lemma final_score_above_one :
  (0 <? py_sum [2; -1; 0; 0])%float = true
  /\ compute_final_score 1%float 0%float 0%float 0%float
       (Some [2; -1; 0; 0]%float) = inr 2%float
  /\ (2 <=? 1)%float = false
  /\ exists res : Q,
      compute_final_score 1%Q 0%Q 0%Q 0%Q (Some [2; -1; 0; 0]%Q) = inr res
      /\ (res == 2)%Q.
Proof.
  split; [reflexivity|]. split; [reflexivity|]. split; [reflexivity|].
  eexists. split; [vm_compute; reflexivity|reflexivity].
Qed.

(** C8, as the code has it.  The scorer raises [ValueError] when the
    weights do not have exactly 4 entries, whatever the sub-scores, and it
    raises nothing otherwise: the weights are divided by their sum only
    when the sum is positive, and a sum that is not positive leaves them
    as supplied. *)
Theorem final_score_raises_on_length_only (s k r p : float) (w : list float) :
  (length w <> 4%nat ->
   compute_final_score s k r p (Some w)
   = inl (ValueError "weights must contain exactly 4 values"))
  /\ (length w = 4%nat ->
      exists res, compute_final_score s k r p (Some w) = inr res)
  /\ (exists res, compute_final_score s k r p None = inr res)
  /\ (forall w0 w1 w2 w3 : float,
        (0 <? py_sum [w0; w1; w2; w3])%float = false ->
        compute_final_score s k r p (Some [w0; w1; w2; w3])
        = inr (w0 * clamp s + w1 * clamp k + w2 * clamp r
               + w3 * clamp p)%float)
  /\ (forall (s k r p : Q) (w : list Q),
        (length w <> 4%nat ->
         compute_final_score s k r p (Some w)
         = inl (ValueError "weights must contain exactly 4 values"))
        /\ (length w = 4%nat ->
            exists res, compute_final_score s k r p (Some w) = inr res)).
Proof.
  split; [apply compute_final_score_length|].
  split; [apply (compute_final_score_four float_pos_not_zero)|].
  split.
  { apply (compute_final_score_four float_pos_not_zero s k r p
             default_weights). reflexivity. }
  split.
  { intros w0 w1 w2 w3 Hw.
    exact (compute_final_score_raw (F:=float) s k r p w0 w1 w2 w3 Hw). }
  intros s' k' r' p' w'. split.
  - apply compute_final_score_length.
  - apply (compute_final_score_four Q_pos_not_zero).
Qed.

(** C8, as the claim has it, fails at the weights [0, 0, 0, 0]: their sum
    is zero and the scorer returns 0.0 instead of raising. *)
Lemma final_score_zero_weights :
  py_sum [0; 0; 0; 0]%float = 0%float
  /\ compute_final_score 1%float 1%float 1%float 1%float
       (Some [0; 0; 0; 0]%float) = inr 0%float.
Proof. split; reflexivity. Qed.

(** X4: the guard of [cos_sim_safe] does its work when the other norm is
    finite: if the norm of [a] is zero and the norm of [b] is neither
    infinite nor NaN, the product of the norms is zero and the function
    returns 0.0, whatever the lengths of the two vectors. *)
Lemma cos_sim_safe_zero_norm (a b : list float) :
  (norm a =? 0)%float = true ->
  (abs (norm b) <? infinity)%float = true ->
  cos_sim_safe a b = inr 0%float.
Proof.
  intros Ha Hb. unfold cos_sim_safe.
  assert (E : (norm a * norm b =? 0)%float = true).
  { rewrite FloatAxioms.eqb_spec, FloatAxioms.mul_spec, Prim2SF_zero.
    rewrite FloatAxioms.eqb_spec, Prim2SF_zero in Ha.
    rewrite FloatAxioms.ltb_spec, FloatAxioms.abs_spec in Hb.
    change (Prim2SF infinity) with (S754_infinity false) in Hb.
    destruct (Prim2SF (norm a)) as [sa|sa| |sa ma ea];
      try (destruct sa; discriminate Ha); try discriminate Ha.
    destruct (Prim2SF (norm b)) as [sb|sb| |sb mb eb];
      try discriminate Hb; reflexivity. }
  rewrite E. reflexivity.
Qed.

Lemma cos_sim_safe_zero_norm_witness :
  (norm [0; 0; 0]%float =? 0)%float = true
  /\ (abs (norm [1; 2; 3]%float) <? infinity)%float = true
  /\ cos_sim_safe [0; 0; 0]%float [1; 2; 3]%float = inr 0%float.
Proof.
  assert (H1 : (norm [0; 0; 0]%float =? 0)%float = true) by reflexivity.
  assert (H2 : (abs (norm [1; 2; 3]%float) <? infinity)%float = true)
    by reflexivity.
  split; [exact H1|]. split; [exact H2|].
  exact (cos_sim_safe_zero_norm [0; 0; 0]%float [1; 2; 3]%float H1 H2).
Defined.

(** C3 fails on the code at a = [0.0], b = [1e200] (the double
    0x1.4e718d7d7625ap+664): the norm of [a] is exactly zero, the norm of
    [b] overflows to infinity, their product is NaN, NaN is not equal to
    0, and the quotient returned is NaN. *)
Theorem cos_sim_safe_nan_on_overflow :
  norm [0%float] = 0%float
  /\ norm [0x1.4e718d7d7625ap+664%float] = infinity
  /\ (norm [0%float] * norm [0x1.4e718d7d7625ap+664%float] =? 0)%float
     = false
  /\ cos_sim_safe [0%float] [0x1.4e718d7d7625ap+664%float] = inr nan
  /\ cos_sim_safe [0; 0; 0]%float [1; 2; 3]%float = inr 0%float.
Proof. repeat split; reflexivity. Qed.

End RankerClaims.

(** ** The matcher *)

Section ReFacts.
Import Py Re ReSpec.

Lemma before_nil prev : before prev [] = prev.
Proof. reflexivity. Qed.

Lemma before_snoc prev pre c : before prev (pre ++ [c]) = Some c.
Proof. unfold before. rewrite last_snoc. reflexivity. Qed.

Lemma before_cons prev c pre : before prev (c :: pre) = before (Some c) pre.
Proof.
  unfold before. rewrite last_cons. destruct (last pre); reflexivity.
Qed.

Lemma before_app prev pre1 pre2 :
  before prev (pre1 ++ pre2) = before (before prev pre1) pre2.
Proof.
  unfold before. rewrite last_app. destruct (last pre2); reflexivity.
Qed.

Lemma before_None_last pre : before None pre = last pre.
Proof. unfold before. destruct (last pre); reflexivity. Qed.

(** The clause of [match_here] for [\s+], unfolded once. *)
Lemma match_here_spaces p prev x s :
  match_here (Spaces :: p) prev (x :: s)
  = if is_space x
    then match match_here (Spaces :: p) (Some x) s with
         | Some n => Some (S n)
         | None => S <$> match_here p (Some x) s
         end
    else None.
Proof. reflexivity. Qed.

Lemma match_here_spaces_nil p prev : match_here (Spaces :: p) prev [] = None.
Proof. reflexivity. Qed.

(** What [match_here] finds is a match. *)
Lemma match_here_sound p :
  forall prev s n,
    match_here p prev s = Some n ->
    exists m rest, s = m ++ rest /\ length m = n /\ Matches p prev m rest.
Proof.
  induction p as [|i p IH]; intros prev s n Hm.
  - injection Hm as <-. exists [], s. repeat split. constructor.
  - destruct i.
    + destruct s as [|x s]; [discriminate|]. cbn in Hm.
      destruct (Ascii.eqb_spec x c) as [->|]; [|discriminate].
      destruct (match_here p (Some c) s) as [k|] eqn:E; [|discriminate].
      injection Hm as <-.
      destruct (IH _ _ _ E) as (m & rest & -> & <- & HM).
      exists (c :: m), rest. repeat split. now constructor.
    + revert prev n Hm. induction s as [|x s IHs]; intros prev n Hm.
      * discriminate.
      * rewrite match_here_spaces in Hm.
        destruct (is_space x) eqn:Ex; [|discriminate].
        destruct (match_here (Spaces :: p) (Some x) s) as [k|] eqn:E.
        -- injection Hm as <-.
           destruct (IHs _ _ E) as (m & rest & -> & <- & HM).
           exists (x :: m), rest. repeat split. now apply M_space_more.
        -- destruct (match_here p (Some x) s) as [k|] eqn:E'; [|discriminate].
           injection Hm as <-.
           destruct (IH _ _ _ E') as (m & rest & -> & <- & HM).
           exists (x :: m), rest. repeat split. now apply M_space_last.
    + cbn in Hm. destruct (at_boundary prev (head s)) eqn:Eb; [|discriminate].
      destruct (IH _ _ _ Hm) as (m & rest & -> & <- & HM).
      exists m, rest. repeat split. now constructor.
    + cbn in Hm. destruct (word_at prev) eqn:Eb; [discriminate|].
      destruct (IH _ _ _ Hm) as (m & rest & -> & <- & HM).
      exists m, rest. repeat split. now constructor.
    + cbn in Hm. destruct (word_at (head s)) eqn:Eb; [discriminate|].
      destruct (IH _ _ _ Hm) as (m & rest & -> & <- & HM).
      exists m, rest. repeat split. now constructor.
Qed.

(** Where there is a match, [match_here] finds one. *)
Lemma match_here_complete p prev m rest :
  Matches p prev m rest -> is_Some (match_here p prev (m ++ rest)).
Proof.
  induction 1 as [prev rest|c p prev m rest _ IH|x p prev m rest Hx _ IH
                 |x p prev m rest Hx _ IH|p prev m rest Hb _ IH
                 |p prev m rest Hb _ IH|p prev m rest Hb _ IH].
  - eexists. reflexivity.
  - cbn. rewrite Ascii.eqb_refl. destruct IH as [k ->]. eexists. reflexivity.
  - cbn [app]. rewrite match_here_spaces, Hx.
    destruct (match_here (Spaces :: p) (Some x) (m ++ rest)); [eauto|].
    destruct IH as [k ->]. eexists. reflexivity.
  - cbn [app]. rewrite match_here_spaces, Hx.
    destruct IH as [k ->]. eauto.
  - cbn. rewrite Hb. exact IH.
  - cbn. rewrite Hb. exact IH.
  - cbn. rewrite Hb. exact IH.
Qed.

(** [re.search] succeeds exactly when the pattern matches somewhere. *)
Lemma search_from_true p :
  forall s prev,
    search_from p prev s = true <->
    exists pre m rest,
      s = pre ++ m ++ rest /\ Matches p (before prev pre) m rest.
Proof.
  induction s as [|c s IH]; intros prev.
  - cbn. destruct (match_here p prev []) as [n|] eqn:E.
    + split; [intros _|reflexivity].
      destruct (match_here_sound _ _ _ _ E) as (m & rest & Hs & _ & HM).
      exists [], m, rest. auto.
    + split; [discriminate|].
      intros (pre & m & rest & Hs & HM).
      symmetry in Hs. apply app_eq_nil in Hs as [-> Hs].
      apply app_eq_nil in Hs as [-> ->].
      apply match_here_complete in HM. cbn in HM. rewrite E in HM.
      destruct HM; discriminate.
  - cbn. destruct (match_here p prev (c :: s)) as [n|] eqn:E.
    + split; [intros _|reflexivity].
      destruct (match_here_sound _ _ _ _ E) as (m & rest & Hs & _ & HM).
      exists [], m, rest. auto.
    + rewrite IH. split.
      * intros (pre & m & rest & -> & HM).
        exists (c :: pre), m, rest. rewrite before_cons. auto.
      * intros (pre & m & rest & Hs & HM).
        destruct pre as [|c' pre].
        -- cbn in Hs. apply match_here_complete in HM.
           rewrite <- Hs in HM. cbn in HM. rewrite E in HM.
           destruct HM; discriminate.
        -- injection Hs as <- ->. rewrite before_cons in HM.
           exists pre, m, rest. auto.
Qed.

Lemma search_true p text :
  search p text = true <->
  exists pre m rest, text = pre ++ m ++ rest /\ Matches p (last pre) m rest.
Proof.
  unfold search. rewrite search_from_true.
  split; intros (pre & m & rest & Hs & HM); exists pre, m, rest;
    (split; [exact Hs|]); [rewrite <- before_None_last|rewrite before_None_last];
    exact HM.
Qed.

End ReFacts.

(** ** The shape of the matches of the program's patterns *)

Section PatternFacts.
Import Py Re ReSpec.

Lemma before_nonempty prev (ws : str) : ws <> [] -> before prev ws = last ws.
Proof.
  intros Hws. unfold before.
  destruct (last ws) eqn:E; [reflexivity|].
  apply last_None in E. contradiction.
Qed.

Lemma Matches_nil_iff prev m rest : Matches [] prev m rest <-> m = [].
Proof. split; [inversion 1; reflexivity|intros ->; constructor]. Qed.

Lemma Matches_boundary_iff p prev m rest :
  Matches (WordBoundary :: p) prev m rest <->
  at_boundary prev (head (m ++ rest)) = true /\ Matches p prev m rest.
Proof. split; [inversion 1; auto|intros []; now constructor]. Qed.

Lemma Matches_not_after_iff p prev m rest :
  Matches (NotAfterWord :: p) prev m rest <->
  word_at prev = false /\ Matches p prev m rest.
Proof. split; [inversion 1; auto|intros []; now constructor]. Qed.

Lemma Matches_not_before_iff p prev m rest :
  Matches (NotBeforeWord :: p) prev m rest <->
  word_at (head (m ++ rest)) = false /\ Matches p prev m rest.
Proof. split; [inversion 1; auto|intros []; now constructor]. Qed.

(** A run of escaped characters matches these characters and nothing
    else. *)
Lemma Matches_escape (L : str) q :
  forall prev m rest,
    Matches (escape L ++ q) prev m rest <->
    exists m2, m = L ++ m2 /\ Matches q (before prev L) m2 rest.
Proof.
  induction L as [|c L IH]; intros prev m rest; cbn [escape map app].
  - split; [intros HM; exists m; auto|intros (m2 & -> & HM); exact HM].
  - split.
    + intros HM. inversion HM as [|c' p' prev' m' rest' HM'| | | | |]; subst.
      apply IH in HM' as (m2 & -> & HM2).
      exists m2. rewrite before_cons. auto.
    + intros (m2 & -> & HM). cbn [app]. constructor.
      apply IH. exists m2. rewrite before_cons in HM. auto.
Qed.

(** [\s+] matches a non-empty run of whitespace. *)
Lemma Matches_spaces_intro q (ws : str) :
  forall prev m2 rest,
    ws <> [] -> Forall (fun c => is_space c = true) ws ->
    Matches q (last ws) m2 rest ->
    Matches (Spaces :: q) prev (ws ++ m2) rest.
Proof.
  induction ws as [|x ws IH]; intros prev m2 rest Hne Hall HM;
    [contradiction|].
  apply Forall_cons in Hall as [Hx Hall].
  destruct ws as [|y ws].
  - cbn in *. now apply M_space_last.
  - cbn [app]. apply M_space_more; [exact Hx|].
    apply IH; [discriminate|exact Hall|].
    rewrite last_cons_cons in HM. exact HM.
Qed.

Lemma Matches_spaces_elim q prev m rest :
  Matches (Spaces :: q) prev m rest ->
  exists ws m2,
    m = ws ++ m2 /\ ws <> [] /\ Forall (fun c => is_space c = true) ws
    /\ Matches q (last ws) m2 rest.
Proof.
  remember (Spaces :: q) as p eqn:Ep. intros HM. revert q Ep.
  induction HM as [|? ? ? ? ? _ _|x p prev m rest Hx HM _
                  |x p prev m rest Hx _ IH| | |];
    intros q Ep; try discriminate; injection Ep as ->.
  - exists [x], m. repeat split; [discriminate|now constructor|exact HM].
  - destruct (IH q eq_refl) as (ws & m2 & -> & Hne & Hall & HM2).
    exists (x :: ws), m2. repeat split; [discriminate|now constructor|].
    destruct ws as [|y ws]; [contradiction|].
    rewrite last_cons_cons. exact HM2.
Qed.

Lemma separated_one tok m : separated [tok] m <-> m = tok.
Proof.
  split; [|intros ->; constructor].
  inversion 1 as [|? ? ? ? ? ? Hs]; subst; [reflexivity|inversion Hs].
Qed.

(** The pattern of a phrase matches its tokens separated by whitespace. *)
Lemma Matches_join (toks : list str) q :
  toks <> [] ->
  forall prev m rest,
    Matches (EnhancedExtractor.join [Spaces] (map escape toks) ++ q)
      prev m rest <->
    exists m1 m2,
      m = m1 ++ m2 /\ separated toks m1 /\ Matches q (before prev m1) m2 rest.
Proof.
  induction toks as [|tok toks IH]; intros Hne prev m rest; [contradiction|].
  destruct toks as [|tok2 toks].
  - cbn [map EnhancedExtractor.join]. rewrite Matches_escape. split.
    + intros (m2 & -> & HM). exists tok, m2. repeat split; [constructor|exact HM].
    + intros (m1 & m2 & -> & Hs & HM). apply separated_one in Hs as ->.
      exists m2. auto.
  - change (EnhancedExtractor.join [Spaces] (map escape (tok :: tok2 :: toks)) ++ q)
      with ((escape tok ++ [Spaces]
             ++ EnhancedExtractor.join [Spaces] (map escape (tok2 :: toks)))
            ++ q).
    rewrite <- !app_assoc. rewrite Matches_escape. cbn [app]. split.
    + intros (m' & -> & HM).
      apply Matches_spaces_elim in HM as (ws & m'' & -> & Hws & Hall & HM).
      apply IH in HM as (m1 & m2 & -> & Hs & HM); [|discriminate].
      exists (tok ++ ws ++ m1), m2.
      rewrite <- !app_assoc. split; [reflexivity|].
      split; [now constructor|].
      rewrite !before_app. rewrite (before_nonempty _ ws Hws). exact HM.
    + intros (m1 & m2 & -> & Hs & HM).
      inversion Hs as [|? ws ? m1' Hws Hall Hs']; subst.
      exists (ws ++ m1' ++ m2). rewrite <- !app_assoc. split; [reflexivity|].
      rewrite !before_app, (before_nonempty _ ws Hws) in HM.
      apply Matches_spaces_intro; [exact Hws|exact Hall|].
      apply IH; [discriminate|]. exists m1', m2. auto.
Qed.

Lemma separated_head (toks : list str) m c tok' :
  separated ((c :: tok') :: toks) m -> head m = Some c.
Proof. inversion 1; reflexivity. Qed.

(** The phrase pattern of [extract_resume_skills]. *)
Lemma Matches_phrase (toks : list str) c tok' prev m rest :
  let tokens := (c :: tok') :: toks in
  Matches ([WordBoundary]
           ++ EnhancedExtractor.join [Spaces] (map escape tokens)
           ++ [WordBoundary]) prev m rest <->
  separated tokens m
  /\ at_boundary prev (head m) = true
  /\ at_boundary (last m) (head rest) = true.
Proof.
  intros tokens.
  change ([WordBoundary]
          ++ EnhancedExtractor.join [Spaces] (map escape tokens)
          ++ [WordBoundary])
    with (WordBoundary
          :: (EnhancedExtractor.join [Spaces] (map escape tokens)
              ++ [WordBoundary])).
  rewrite Matches_boundary_iff. split.
  - intros [Hb HM'].
    apply Matches_join in HM' as (m1 & m2 & -> & Hs & HM2); [|discriminate].
    apply Matches_boundary_iff in HM2 as [Hb2 HM3].
    apply Matches_nil_iff in HM3 as ->. rewrite app_nil_r in *.
    cbn [app] in Hb2.
    pose proof (separated_head _ _ _ _ Hs) as Hh.
    assert (Hne : m1 <> []) by (intros ->; discriminate).
    rewrite (before_nonempty _ _ Hne) in Hb2.
    rewrite head_app, Hh in Hb. rewrite Hh. auto.
  - intros (Hs & Hb1 & Hb2).
    pose proof (separated_head _ _ _ _ Hs) as Hh.
    assert (Hne : m <> []) by (intros ->; discriminate).
    split; [rewrite head_app, Hh; rewrite Hh in Hb1; exact Hb1|].
    apply Matches_join; [discriminate|].
    exists m, []. rewrite app_nil_r. split; [reflexivity|].
    split; [exact Hs|].
    constructor; [|constructor].
    rewrite (before_nonempty _ _ Hne). exact Hb2.
Qed.

(** [re.search] with a phrase pattern finds the whole-word occurrences of
    the phrase. *)
Lemma search_phrase (toks : list str) c tok' text :
  let tokens := (c :: tok') :: toks in
  search ([WordBoundary]
          ++ EnhancedExtractor.join [Spaces] (map escape tokens)
          ++ [WordBoundary]) text = true <->
  phrase_occurs tokens text.
Proof.
  intros tokens. rewrite search_true. unfold phrase_occurs.
  split; intros (pre & m & post & Ht & H); exists pre, m, post;
    (split; [exact Ht|]); apply (Matches_phrase toks c tok') in H; exact H.
Qed.

End PatternFacts.

(** ** Characters *)

Section CharFacts.
Import Py Re Checks.

Lemma space_not_word (c : ascii) : is_space c = true -> is_word c = false.
Proof.
  destruct c as [[] [] [] [] [] [] [] []]; vm_compute; congruence.
Qed.

Lemma norm_char_not_word (c : ascii) :
  is_word c = false -> is_word (norm_char c) = false.
Proof.
  destruct c as [[] [] [] [] [] [] [] []]; vm_compute; congruence.
Qed.

Lemma replace_single old x (s : str) :
  replace old [x] s = map (fun c => if Ascii.eqb c old then x else c) s.
Proof.
  unfold replace. induction s as [|c s IH]; [reflexivity|].
  cbn [flat_map map]. rewrite IH. destruct (Ascii.eqb c old); reflexivity.
Qed.

Lemma normalize_text_map (text : str) :
  EnhancedExtractor.normalize_text text = map norm_char text.
Proof.
  unfold EnhancedExtractor.normalize_text, lower, of_string.
  cbn [list_ascii_of_string]. rewrite !replace_single.
  rewrite !map_map. reflexivity.
Qed.

End CharFacts.

(** ** Texts without a word character *)

Section NoWordFacts.
Import Py Re Checks.

Lemma match_here_first_lit p c :
  first_lit p = Some c ->
  forall prev s n, match_here p prev s = Some n -> head s = Some c.
Proof.
  induction p as [|i p IH]; [discriminate|].
  destruct i; cbn [first_lit]; intros Hf prev s n Hm.
  - injection Hf as ->. destruct s as [|x s]; [discriminate|]. cbn in Hm.
    destruct (Ascii.eqb_spec x c) as [->|]; [reflexivity|discriminate].
  - discriminate.
  - cbn in Hm. destruct (at_boundary prev (head s)); [eauto|discriminate].
  - cbn in Hm. destruct (word_at prev); [discriminate|eauto].
  - cbn in Hm. destruct (word_at (head s)); [discriminate|eauto].
Qed.

Lemma match_here_needs_word p prev s :
  starts_with_word p = true -> word_at (head s) = false ->
  match_here p prev s = None.
Proof.
  unfold starts_with_word. intros Hp Hs.
  destruct (first_lit p) as [c|] eqn:Ef; [|discriminate].
  destruct (match_here p prev s) as [n|] eqn:E; [|reflexivity].
  apply (match_here_first_lit _ _ Ef) in E. rewrite E in Hs.
  cbn in *. congruence.
Qed.

Lemma search_from_no_word p :
  starts_with_word p = true ->
  forall s prev,
    Forall (fun c => is_word c = false) s -> search_from p prev s = false.
Proof.
  intros Hp. induction s as [|c s IH]; intros prev Hs; cbn.
  - rewrite match_here_needs_word; auto.
  - apply Forall_cons in Hs as [Hc Hs].
    rewrite match_here_needs_word; auto.
Qed.

Lemma sub_from_no_word p repl :
  starts_with_word p = true ->
  forall s prev,
    Forall (fun c => is_word c = false) s -> sub_from p repl prev O s = s.
Proof.
  intros Hp. induction s as [|c s IH]; intros prev Hs; cbn.
  - rewrite match_here_needs_word; auto.
  - apply Forall_cons in Hs as [Hc Hs].
    rewrite match_here_needs_word; auto. rewrite IH; auto.
Qed.

End NoWordFacts.

(** ** The extractor *)

Section ExtractorFacts.
Import Py Re ReSpec Checks.
Import EnhancedExtractor.

(** The loop that fills [found] keeps the phrases whose search succeeds. *)
Lemma elem_of_found (test : string -> bool) (X : gset string) (x : string) :
  x ∈ set_fold (fun skill found =>
                  if test skill then {[ skill ]} ∪ found else found)
        (∅ : gset string) X
  <-> x ∈ X /\ test x = true.
Proof.
  unfold set_fold. cbn. rewrite <- (elem_of_elements X).
  induction (elements X) as [|y l IH]; cbn [foldr].
  - set_solver.
  - destruct (test y) eqn:E; rewrite ?elem_of_union, ?elem_of_singleton,
      IH, elem_of_cons; split; intros H;
      repeat match goal with
             | H : _ \/ _ |- _ => destruct H
             | H : _ /\ _ |- _ => destruct H
             end; subst; auto; congruence.
Qed.

Lemma elem_of_find_skills (text : str) (skill : string) :
  skill ∈ find_skills text
  <-> skill ∈ SKILL_TAXONOMY /\ search (skill_pattern skill) text = true.
Proof.
  unfold find_skills.
  pose proof (elem_of_found (fun s => search (skill_pattern s) text)
                SKILL_TAXONOMY skill) as H.
  cbv beta in H. exact H.
Qed.

Lemma elem_of_taxonomy (skill : string) :
  skill ∈ SKILL_TAXONOMY <-> skill ∈ SKILL_TAXONOMY_items.
Proof. unfold SKILL_TAXONOMY. apply elem_of_list_to_set. Qed.

(** A property of every phrase of the taxonomy, from its check on the
    list. *)
Lemma taxonomy_forall (test : string -> bool) :
  forallb test SKILL_TAXONOMY_items = true ->
  forall skill, skill ∈ SKILL_TAXONOMY -> test skill = true.
Proof.
  intros Hall skill Hin. apply elem_of_taxonomy, list_elem_of_In in Hin.
  rewrite forallb_forall in Hall. auto.
Qed.

Lemma taxonomy_phrase_ok skill :
  skill ∈ SKILL_TAXONOMY -> phrase_ok skill = true.
Proof. apply taxonomy_forall. vm_compute. reflexivity. Qed.

Lemma taxonomy_starts_with_word skill :
  skill ∈ SKILL_TAXONOMY -> starts_with_word (skill_pattern skill) = true.
Proof.
  apply (taxonomy_forall (fun s => starts_with_word (skill_pattern s))).
  vm_compute. reflexivity.
Qed.

Lemma aliases_start_with_word :
  Forall (fun '(alias, _) => starts_with_word (alias_pattern alias) = true)
    SKILL_ALIASES.
Proof. repeat constructor. Qed.

Lemma extract_elem_of (text skill : string) :
  skill ∈ extract_resume_skills text
  <-> skill ∈ SKILL_TAXONOMY
      /\ search (skill_pattern skill) (prepare text) = true.
Proof.
  unfold extract_resume_skills. rewrite elem_of_sorted.
  apply elem_of_find_skills.
Qed.

Lemma search_skill_pattern (text : str) (skill : string) :
  phrase_ok skill = true ->
  search (skill_pattern skill) text = true
  <-> phrase_occurs (split (of_string skill)) text.
Proof.
  unfold phrase_ok, skill_pattern.
  destruct (split (of_string skill)) as [|[|c tok'] toks];
    try discriminate.
  intros _. apply (search_phrase toks c tok').
Qed.

(** A phrase of the taxonomy is in the output exactly when its pattern
    finds it: the tokens in a row with the [\b] of [re] on both sides. *)
Lemma extract_elem_of_occurs (text skill : string) :
  skill ∈ SKILL_TAXONOMY ->
  skill ∈ extract_resume_skills text
  <-> phrase_occurs (split (of_string skill)) (prepare text).
Proof.
  intros Hin.
  pose proof (search_skill_pattern (prepare text) skill
                (taxonomy_phrase_ok skill Hin)) as Hs.
  pose proof (extract_elem_of text skill) as He.
  split.
  - intros H. apply Hs, He. exact H.
  - intros H. apply He. split; [exact Hin|]. apply Hs. exact H.
Qed.

Lemma apply_aliases_no_word (aliases : list (string * string)) (text : str) :
  Forall (fun '(alias, _) => starts_with_word (alias_pattern alias) = true)
    aliases ->
  Forall (fun c => is_word c = false) text ->
  apply_aliases aliases text = text.
Proof.
  intros Ha Ht. unfold apply_aliases.
  induction Ha as [|[alias canonical] aliases Hp _ IH]; [reflexivity|].
  cbn [fold_left]. unfold sub at 2.
  rewrite sub_from_no_word; auto.
Qed.

Lemma prepare_no_word (text : string) :
  Forall (fun c => is_word c = false) (of_string text) ->
  prepare text = map norm_char (of_string text)
  /\ Forall (fun c => is_word c = false) (prepare text).
Proof.
  intros Ht. unfold prepare. rewrite normalize_text_map.
  assert (Hn : Forall (fun c => is_word c = false)
                 (map norm_char (of_string text))).
  { apply Forall_fmap. eapply Forall_impl; [exact Ht|].
    intros c Hc. cbn. apply norm_char_not_word. exact Hc. }
  rewrite apply_aliases_no_word; auto using aliases_start_with_word.
Qed.

Lemma extract_no_word (text : string) :
  Forall (fun c => is_word c = false) (of_string text) ->
  extract_resume_skills text = [].
Proof.
  intros Ht. destruct (prepare_no_word text Ht) as [_ Hp].
  unfold extract_resume_skills.
  assert (E : find_skills (prepare text) = ∅).
  { apply leibniz_equiv, elem_of_equiv_empty. intros skill Hin.
    apply elem_of_find_skills in Hin as [Hin Hs].
    unfold search in Hs.
    rewrite search_from_no_word in Hs;
      auto using taxonomy_starts_with_word. discriminate. }
  rewrite E. reflexivity.
Qed.

(** C5: the output of the extractor is sorted in the code-point order, has
    no repetition and holds phrases of the taxonomy only; an input that is
    empty or all whitespace gives the empty list.  The extractor is a total
    function: it returns a list on every input. *)
Theorem extract_sorted_within_taxonomy (text : string) :
  StronglySorted str_le (extract_resume_skills text)
  /\ NoDup (extract_resume_skills text)
  /\ (forall skill, skill ∈ extract_resume_skills text ->
                    skill ∈ SKILL_TAXONOMY)
  /\ (Forall (fun c => is_space c = true) (of_string text) ->
      extract_resume_skills text = [])
  /\ extract_resume_skills "" = [].
Proof.
  split; [apply sorted_StronglySorted|].
  split; [apply sorted_NoDup|].
  split; [intros skill Hin; apply extract_elem_of in Hin; tauto|].
  split; [|vm_compute; reflexivity].
  intros Hs. apply extract_no_word.
  eapply Forall_impl; [exact Hs|]. intros c. apply space_not_word.
Qed.

End ExtractorFacts.

(** ** [re.sub] with the pattern of an alias *)

Section SubFacts.
Import Py Re ReSpec Checks.

Lemma Matches_lookaround (L : str) prev m rest :
  Matches (lookaround L) prev m rest <->
  m = L /\ word_at prev = false /\ word_at (head rest) = false.
Proof.
  unfold lookaround. cbn [app]. rewrite Matches_not_after_iff, Matches_escape.
  split.
  - intros (Hp & m2 & -> & HM).
    apply Matches_not_before_iff in HM as [Hn HM].
    apply Matches_nil_iff in HM as ->. rewrite app_nil_r. auto.
  - intros (-> & Hp & Hn). split; [exact Hp|].
    exists []. rewrite app_nil_r. split; [reflexivity|].
    constructor; [exact Hn|constructor].
Qed.

(** A hit of the alias pattern: the alias itself, no word character on
    either side. *)
Lemma match_here_lookaround (L : str) prev s n :
  match_here (lookaround L) prev s = Some n <->
  n = length L
  /\ exists rest,
      s = L ++ rest /\ word_at prev = false /\ word_at (head rest) = false.
Proof.
  split.
  - intros Hm. apply match_here_sound in Hm as (m & rest & -> & <- & HM).
    apply Matches_lookaround in HM as (-> & Hp & Hn). eauto.
  - intros (-> & rest & -> & Hp & Hn).
    assert (HM : Matches (lookaround L) prev L rest)
      by (apply Matches_lookaround; auto).
    destruct (match_here_complete _ _ _ _ HM) as [k Hk].
    rewrite Hk. f_equal.
    apply match_here_sound in Hk as (m & rest' & Heq & <- & HM').
    apply Matches_lookaround in HM' as (-> & _). reflexivity.
Qed.

(** Passing over the rest of a match. *)
Lemma sub_from_skip p repl :
  forall k s prev,
    (k <= length s)%nat ->
    sub_from p repl prev k s
    = sub_from p repl (before prev (take k s)) O (drop k s).
Proof.
  induction k as [|k IH]; intros s prev Hk.
  - rewrite take_0, drop_0. reflexivity.
  - destruct s as [|c s]; [cbn in Hk; lia|].
    cbn [sub_from take drop]. rewrite before_cons.
    apply IH. cbn in Hk. lia.
Qed.

Lemma sub_from_hit (L : str) repl prev rest :
  L <> [] ->
  word_at prev = false -> word_at (head rest) = false ->
  sub_from (lookaround L) repl prev O (L ++ rest)
  = repl ++ sub_from (lookaround L) repl (last L) O rest.
Proof.
  intros HL Hp Hn.
  assert (Hm : match_here (lookaround L) prev (L ++ rest) = Some (length L))
    by (apply match_here_lookaround; eauto).
  destruct L as [|c L]; [contradiction|].
  cbn [app sub_from]. cbn [app] in Hm. rewrite Hm. cbn [length].
  rewrite sub_from_skip by (rewrite length_app; lia).
  rewrite take_app_length, drop_app_length.
  rewrite <- (before_cons None), (before_nonempty None (c :: L))
    by discriminate.
  reflexivity.
Qed.

Lemma sub_from_miss p repl prev c s :
  match_here p prev (c :: s) = None ->
  sub_from p repl prev O (c :: s) = c :: sub_from p repl (Some c) O s.
Proof. intros Hm. cbn [sub_from]. rewrite Hm. reflexivity. Qed.

Lemma sub_from_nil (L : str) repl prev :
  L <> [] -> sub_from (lookaround L) repl prev O [] = [].
Proof.
  intros HL. cbn [sub_from].
  destruct (match_here (lookaround L) prev []) as [n|] eqn:E; [|reflexivity].
  apply match_here_lookaround in E as (_ & rest & Hs & _).
  destruct L; [contradiction|discriminate].
Qed.

Lemma lookaround_starts_with_word c0 (L : str) :
  is_word c0 = true -> starts_with_word (lookaround (c0 :: L)) = true.
Proof. intros Hc. exact Hc. Qed.

(** A non-word character at the front of the text stays at the front. *)
Lemma sub_from_head_kept c0 (L : str) repl prev s :
  is_word c0 = true -> word_at (head s) = false ->
  word_at (head (sub_from (lookaround (c0 :: L)) repl prev O s)) = false.
Proof.
  intros Hc Hs. destruct s as [|c s].
  - rewrite sub_from_nil by discriminate. reflexivity.
  - rewrite sub_from_miss; [exact Hs|].
    apply match_here_needs_word; [apply lookaround_starts_with_word|]; auto.
Qed.

(** Where no occurrence of the alias stands by itself, nothing is
    replaced. *)
Lemma sub_from_unchanged (L : str) repl :
  L <> [] ->
  forall s prev,
    ~ standalone L prev s -> sub_from (lookaround L) repl prev O s = s.
Proof.
  intros HL. induction s as [|c s IH]; intros prev Hno.
  - apply sub_from_nil; assumption.
  - rewrite sub_from_miss.
    + f_equal. apply IH. intros (pre & post & -> & Hb & Hn).
      apply Hno. exists (c :: pre), post. rewrite before_cons. auto.
    + destruct (match_here (lookaround L) prev (c :: s)) as [n|] eqn:E;
        [|reflexivity].
      apply match_here_lookaround in E as (_ & rest & Hs & Hp & Hn).
      exfalso. apply Hno. exists [], rest. auto.
Qed.

End SubFacts.

(** ** Occurrences that survive the substitution of an alias *)

Section StandaloneFacts.
Import Py Re ReSpec Checks.

Lemma no_seam_last (L : str) o0 z :
  no_seam (L ++ [z]) o0 = true -> is_word z = true.
Proof.
  induction L as [|x L IH]; cbn [app no_seam]; [auto|].
  destruct (L ++ [z]) as [|y l] eqn:E; [destruct L; discriminate|].
  intros H. apply andb_true_iff in H as [_ H]. auto.
Qed.

Lemma no_seam_pair (l1 l2 : str) o0 z y :
  no_seam (l1 ++ z :: y :: l2) o0 = true -> is_word z = true \/ y <> o0.
Proof.
  induction l1 as [|x l1 IH]; cbn [app no_seam].
  - intros H. apply andb_true_iff in H as [H _].
    apply orb_true_iff in H as [H|H]; [auto|].
    right. intros ->. rewrite Ascii.eqb_refl in H. discriminate.
  - destruct (l1 ++ z :: y :: l2) as [|y' l] eqn:E;
      [destruct l1; discriminate|].
    intros H. apply andb_true_iff in H as [_ H]. auto.
Qed.

(** A hit that begins before an untouched occurrence ends before it. *)
Lemma hit_before_occurrence (L pre tail rest : str) o0 :
  no_seam L o0 = true ->
  pre <> [] -> word_at (last pre) = false -> head tail = Some o0 ->
  pre ++ tail = L ++ rest ->
  exists k, k <> [] /\ pre = L ++ k /\ rest = k ++ tail.
Proof.
  intros Hseam Hpre Hlast Htail Heq.
  apply app_eq_inv in Heq as [(k & Hp & Hr)|(k & HL & Ht)].
  - exists k. split; [|auto].
    intros ->. rewrite app_nil_r in Hp. subst pre.
    destruct (last_is_Some L) as [_ Hl]. destruct (Hl Hpre) as [z Hz].
    rewrite Hz in Hlast. cbn in Hlast.
    apply last_Some in Hz as [L0 ->]. apply no_seam_last in Hseam. congruence.
  - exfalso.
    destruct (last_is_Some pre) as [_ Hl]. destruct (Hl Hpre) as [z Hz].
    rewrite Hz in Hlast. cbn in Hlast.
    apply last_Some in Hz as [pre0 ->]. subst L.
    destruct k as [|y k].
    + rewrite app_nil_r in Hseam. apply no_seam_last in Hseam. congruence.
    + subst tail. injection Htail as ->.
      rewrite <- app_assoc in Hseam. cbn [app] in Hseam.
      apply no_seam_pair in Hseam as [Hz|Hy]; congruence.
Qed.

(** One substitution, on a text with an untouched occurrence of [w]: what
    the substitution does at the occurrence itself ([w] becomes [w']), it
    does within the whole text. *)
Lemma sub_from_standalone (c0 o0 : ascii) (L repl w w' : str) :
  is_word c0 = true -> no_seam (c0 :: L) o0 = true -> head w = Some o0 ->
  (forall prev post,
      word_at prev = false -> word_at (head post) = false ->
      exists post',
        sub_from (lookaround (c0 :: L)) repl prev O (w ++ post) = w' ++ post'
        /\ word_at (head post') = false) ->
  forall text prev,
    standalone w prev text ->
    standalone w' prev (sub_from (lookaround (c0 :: L)) repl prev O text).
Proof.
  intros Hc0 Hseam Hw Hat text prev (pre & post & -> & Hb & Hn).
  remember (length pre) as n eqn:En.
  revert pre prev En Hb. induction n as [n IH] using lt_wf_ind.
  intros pre prev En Hb. destruct pre as [|c pre].
  - cbn [app]. destruct (Hat prev post Hb Hn) as (post' & -> & Hn').
    exists [], post'. auto.
  - assert (Hlast : word_at (last (c :: pre)) = false)
      by (rewrite <- (before_nonempty prev) by discriminate; exact Hb).
    destruct (match_here (lookaround (c0 :: L)) prev
                ((c :: pre) ++ w ++ post)) as [k|] eqn:E.
    + apply match_here_lookaround in E as (_ & rest & Heq & Hp & Hr).
      assert (Hh : head (w ++ post) = Some o0)
        by (rewrite head_app, Hw; reflexivity).
      assert (Hne : c :: pre <> []) by discriminate.
      destruct (hit_before_occurrence (c0 :: L) (c :: pre) (w ++ post) rest
                  o0 Hseam Hne Hlast Hh Heq)
        as (k' & Hk' & Hpre & ->).
      rewrite Heq. rewrite sub_from_hit; [|discriminate|exact Hp|exact Hr].
      assert (Hlen : (length k' < n)%nat).
      { subst n. rewrite Hpre, length_app. cbn. lia. }
      assert (Hb' : word_at (before (last (c0 :: L)) k') = false).
      { rewrite (before_nonempty _ _ Hk').
        rewrite Hpre, last_app in Hlast.
        destruct (last k') eqn:Ek; [exact Hlast|].
        apply last_None in Ek. contradiction. }
      destruct (IH _ Hlen k' (last (c0 :: L)) eq_refl Hb')
        as (pre' & post' & -> & Hb'' & Hn').
      exists (repl ++ pre'), post'. rewrite <- app_assoc.
      split; [reflexivity|]. split; [|exact Hn'].
      rewrite before_app.
      destruct pre' as [|c' pre'].
      * exfalso. rewrite before_nil in Hb''.
        assert (HL : c0 :: L <> []) by discriminate.
        destruct (last_is_Some (c0 :: L)) as [_ Hl].
        destruct (Hl HL) as [z Hz].
        rewrite Hz in Hb''. cbn in Hb''.
        apply last_Some in Hz as [L0 Hz]. rewrite Hz in Hseam.
        apply no_seam_last in Hseam. congruence.
      * assert (Hne' : c' :: pre' <> []) by discriminate.
        rewrite (before_nonempty _ _ Hne') in Hb''.
        rewrite (before_nonempty _ _ Hne'). exact Hb''.
    + cbn [app] in E |- *. rewrite sub_from_miss by exact E.
      assert (Hlen : (length pre < n)%nat) by (subst n; cbn; lia).
      rewrite before_cons in Hb.
      destruct (IH _ Hlen pre (Some c) eq_refl Hb)
        as (pre' & post' & -> & Hb'' & Hn').
      exists (c :: pre'), post'. rewrite before_cons. auto.
Qed.

(** At an untouched occurrence of the alias itself, the alias is
    replaced. *)
Lemma sub_from_at_alias (c0 : ascii) (L repl : str) prev post :
  is_word c0 = true ->
  word_at prev = false -> word_at (head post) = false ->
  exists post',
    sub_from (lookaround (c0 :: L)) repl prev O ((c0 :: L) ++ post)
    = repl ++ post'
    /\ word_at (head post') = false.
Proof.
  intros Hc0 Hp Hn. eexists. split.
  - apply sub_from_hit; [discriminate|exact Hp|exact Hn].
  - apply sub_from_head_kept; assumption.
Qed.

(** The substitution passes over an occurrence in which the alias cannot
    start. *)
Lemma sub_from_walk (c0 : ascii) (L repl : str) (occ : str) :
  forall prev post,
    no_start_in c0 (word_at prev) occ = true ->
    sub_from (lookaround (c0 :: L)) repl prev O (occ ++ post)
    = occ ++ sub_from (lookaround (c0 :: L)) repl (before prev occ) O post.
Proof.
  induction occ as [|x occ IH]; intros prev post Hno; [reflexivity|].
  cbn [no_start_in] in Hno. apply andb_true_iff in Hno as [Hx Hno].
  cbn [app]. rewrite sub_from_miss.
  - rewrite before_cons. f_equal. apply IH. exact Hno.
  - destruct (match_here (lookaround (c0 :: L)) prev (x :: occ ++ post))
      as [k|] eqn:E; [|reflexivity].
    apply match_here_lookaround in E as (_ & rest & Heq & Hp & _).
    injection Heq as -> _. rewrite Hp, Ascii.eqb_refl in Hx. discriminate.
Qed.

Lemma sub_from_at_other (c0 : ascii) (L repl occ : str) prev post :
  is_word c0 = true -> no_start_in c0 false occ = true ->
  word_at prev = false -> word_at (head post) = false ->
  exists post',
    sub_from (lookaround (c0 :: L)) repl prev O (occ ++ post) = occ ++ post'
    /\ word_at (head post') = false.
Proof.
  intros Hc0 Hno Hp Hn. eexists. split.
  - apply sub_from_walk. rewrite Hp. exact Hno.
  - apply sub_from_head_kept; assumption.
Qed.

(** The substitution of an alias that [alias_keeps] accepts leaves an
    untouched occurrence of [occ] untouched. *)
Lemma sub_keeps_standalone (occ : str) (alias canonical : string) text :
  alias_keeps occ alias = true ->
  standalone occ None text ->
  standalone occ None
    (sub (EnhancedExtractor.alias_pattern alias) (of_string canonical) text).
Proof.
  unfold alias_keeps, sub.
  change (EnhancedExtractor.alias_pattern alias)
    with (lookaround (of_string alias)).
  destruct (of_string alias) as [|c0 L]; [discriminate|].
  destruct occ as [|o0 occ]; [discriminate|].
  intros H. apply andb_true_iff in H as [H Hseam].
  apply andb_true_iff in H as [Hc0 Hno].
  apply (sub_from_standalone c0 o0); auto.
  intros prev post Hp Hn. apply sub_from_at_other; assumption.
Qed.

Lemma apply_aliases_keeps_standalone (occ : str)
    (aliases : list (string * string)) :
  forallb (fun '(alias, _) => alias_keeps occ alias) aliases = true ->
  forall text,
    standalone occ None text ->
    standalone occ None (EnhancedExtractor.apply_aliases aliases text).
Proof.
  unfold EnhancedExtractor.apply_aliases.
  induction aliases as [|[alias canonical] aliases IH]; intros Hall text Hs;
    [exact Hs|].
  cbn [forallb] in Hall. apply andb_true_iff in Hall as [Ha Hall].
  cbn [fold_left]. apply IH; [exact Hall|].
  apply sub_keeps_standalone; assumption.
Qed.

(** The substitution of an alias made of word characters turns its
    untouched occurrences into the canonical phrase. *)
Lemma sub_replaces_standalone (c0 : ascii) (L : str) (repl : str) text :
  is_word c0 = true -> no_seam (c0 :: L) c0 = true ->
  standalone (c0 :: L) None text ->
  standalone repl None (sub (lookaround (c0 :: L)) repl text).
Proof.
  intros Hc0 Hseam. unfold sub.
  apply (sub_from_standalone c0 c0); auto.
  intros prev post Hp Hn. apply sub_from_at_alias; assumption.
Qed.

End StandaloneFacts.

(** ** Aliases in the extractor *)

Section AliasFacts.
Import Py Re ReSpec Checks.
Import EnhancedExtractor.

Lemma last_map {A B} (f : A -> B) (l : list A) :
  last (map f l) = option_map f (last l).
Proof.
  induction l as [|x l IH]; [reflexivity|].
  destruct l as [|y l]; [reflexivity|].
  change (map f (x :: y :: l)) with (f x :: f y :: map f l).
  rewrite !last_cons_cons. exact IH.
Qed.

Lemma head_map {A B} (f : A -> B) (l : list A) :
  head (map f l) = option_map f (head l).
Proof. destruct l; reflexivity. Qed.

Lemma word_at_norm_char (c : option ascii) :
  word_at c = false -> word_at (option_map norm_char c) = false.
Proof. destruct c as [c|]; [apply norm_char_not_word|auto]. Qed.

(** Normalization keeps an untouched occurrence untouched. *)
Lemma standalone_normalize (w text : str) :
  standalone w None text ->
  standalone (map norm_char w) None (normalize_text text).
Proof.
  intros (pre & post & -> & Hb & Hn). rewrite normalize_text_map.
  exists (map norm_char pre), (map norm_char post).
  rewrite !map_app. split; [reflexivity|].
  rewrite before_None_last in *. rewrite last_map, head_map.
  split; apply word_at_norm_char; assumption.
Qed.

(** An untouched occurrence of a phrase is found by its pattern. *)
Lemma standalone_found (tok1 tok2 : str) c1 c2 text :
  is_word c1 = true -> last (c1 :: tok1 ++ " "%char :: tok2) = Some c2 ->
  is_word c2 = true ->
  standalone (c1 :: tok1 ++ " "%char :: tok2) None text ->
  phrase_occurs [c1 :: tok1; tok2] text.
Proof.
  intros H1 Hl H2 (pre & post & -> & Hb & Hn).
  exists pre, (c1 :: tok1 ++ " "%char :: tok2), post.
  split; [reflexivity|]. split.
  - apply (sep_cons (c1 :: tok1) [" "%char] [tok2] tok2).
    + discriminate.
    + repeat constructor.
    + constructor.
  - rewrite before_None_last in Hb. unfold at_boundary.
    rewrite Hb, Hn, Hl. cbn. rewrite H1, H2. auto.
Qed.

Lemma machine_learning_found (text : str) :
  standalone (of_string "machine learning") None text ->
  search (skill_pattern "machine learning") text = true.
Proof.
  intros Hs. apply search_skill_pattern; [reflexivity|].
  change (split (of_string "machine learning"))
    with [of_string "machine"; of_string "learning"].
  apply (standalone_found (of_string "achine") (of_string "learning")
           "m"%char "g"%char); try reflexivity.
  exact Hs.
Qed.

(** After the loop over the aliases, an untouched "ml" of the normalized
    text has become an untouched "machine learning". *)
Lemma apply_aliases_ml (text : str) :
  standalone (of_string "ml") None text ->
  standalone (of_string "machine learning") None
    (apply_aliases SKILL_ALIASES text).
Proof.
  intros Hs.
  change (apply_aliases SKILL_ALIASES text)
    with (apply_aliases (tail SKILL_ALIASES)
            (sub (lookaround (of_string "ml"))
               (of_string "machine learning") text)).
  apply apply_aliases_keeps_standalone; [vm_compute; reflexivity|].
  apply (sub_replaces_standalone "m"%char (of_string "l"));
    [reflexivity|reflexivity|exact Hs].
Qed.

Lemma sub_alias_unchanged (alias canonical : string) (text : str) :
  of_string alias <> [] ->
  ~ standalone (of_string alias) None text ->
  sub (alias_pattern alias) (of_string canonical) text = text.
Proof.
  intros Hne Hno. unfold sub.
  change (alias_pattern alias) with (lookaround (of_string alias)).
  apply sub_from_unchanged; assumption.
Qed.

(** C4: an alias is replaced only where no word character precedes or
    follows it.  For every text with the word "ML" standing by itself the
    output holds "machine learning", and it never holds "ml"; on
    "I enjoy coding" the output does not hold "javascript"; and a text in
    which an alias does not stand by itself is left as it is by the
    substitution of that alias. *)
Theorem alias_ml_gives_machine_learning (text : string) (pre post : str) :
  of_string text = pre ++ of_string "ML" ++ post ->
  word_at (last pre) = false ->
  word_at (head post) = false ->
  "machine learning"%string ∈ extract_resume_skills text
  /\ ("ml"%string ∉ extract_resume_skills text)
  /\ ("javascript"%string ∉ extract_resume_skills "I enjoy coding")
  /\ (forall (alias canonical : string) (t : str),
        (alias, canonical) ∈ SKILL_ALIASES ->
        ~ standalone (of_string alias) None t ->
        sub (alias_pattern alias) (of_string canonical) t = t).
Proof.
  intros Ht Hb Hn. split; [|split; [|split]].
  - apply extract_elem_of. split.
    + apply elem_of_taxonomy, (bool_decide_unpack _). vm_compute. exact I.
    + apply machine_learning_found. unfold prepare.
      apply apply_aliases_ml.
      change (of_string "ml") with (map norm_char (of_string "ML")).
      apply standalone_normalize.
      exists pre, post. rewrite before_None_last. auto.
  - intros Hin. apply extract_elem_of in Hin as [Hin _].
    apply elem_of_taxonomy in Hin. revert Hin.
    apply (bool_decide_eq_false_1 _). vm_compute. reflexivity.
  - apply (bool_decide_eq_false_1 _). vm_compute. reflexivity.
  - intros alias canonical t Hin. apply sub_alias_unchanged.
    assert (HF : Forall (fun ac : string * string => of_string ac.1 <> [])
                   SKILL_ALIASES)
      by (repeat constructor; discriminate).
    rewrite Forall_forall in HF. exact (HF _ Hin).
Qed.

Lemma alias_ml_gives_machine_learning_witness :
  of_string "Python, ML (and more)"
  = of_string "Python, " ++ of_string "ML" ++ of_string " (and more)"
  /\ "machine learning"%string ∈ extract_resume_skills "Python, ML (and more)"
  /\ extract_resume_skills "Python, ML (and more)"
     = ["machine learning"; "python"]%string.
Proof.
  assert (H1 : of_string "Python, ML (and more)"
               = of_string "Python, " ++ of_string "ML"
                 ++ of_string " (and more)") by reflexivity.
  assert (H2 : word_at (last (of_string "Python, ")) = false) by reflexivity.
  assert (H3 : word_at (head (of_string " (and more)")) = false)
    by reflexivity.
  split; [exact H1|].
  split; [|vm_compute; reflexivity].
  exact (proj1 (alias_ml_gives_machine_learning _ _ _ H1 H2 H3)).
Defined.

End AliasFacts.

(** ** The two copies of the extractor *)

Section TwoExtractors.
Import Py Re ReSpec Checks.

(** C10 fails on the code.  On "i know c++" the extractor of
    [enhanced_extractor.py] returns ["c"] and the one of
    [lambda_handler.py] returns ["c"; "c++"]: the [\b] after the last "+"
    asks for a word character behind it.  The same holds for "c#".  On
    "machine  learning", with two spaces, the first returns
    ["machine learning"] and the second returns nothing: its pattern has
    the phrase with its single space. *)
Theorem extractors_differ :
  EnhancedExtractor.extract_resume_skills "i know c++" = ["c"]%string
  /\ LambdaHandler.extract_skills_from_text "i know c++"
     = ["c"; "c++"]%string
  /\ EnhancedExtractor.extract_resume_skills "c# and sql" = ["c"; "sql"]%string
  /\ LambdaHandler.extract_skills_from_text "c# and sql"
     = ["c"; "c#"; "sql"]%string
  /\ EnhancedExtractor.extract_resume_skills "machine  learning"
     = ["machine learning"]%string
  /\ LambdaHandler.extract_skills_from_text "machine  learning" = [].
Proof. repeat split; vm_compute; reflexivity. Qed.

End TwoExtractors.

(** ** The extractor of [lambda_handler.py] *)

Section LambdaFacts.
Import Py Re ReSpec Checks.

Lemma search_lookaround (L : str) (text : str) :
  search (lookaround L) text = true <-> standalone L None text.
Proof.
  rewrite search_true. unfold standalone. split.
  - intros (pre & m & rest & -> & HM).
    apply Matches_lookaround in HM as (-> & Hp & Hn).
    exists pre, rest. rewrite before_None_last. auto.
  - intros (pre & post & -> & Hp & Hn). exists pre, L, post.
    split; [reflexivity|]. apply Matches_lookaround.
    rewrite before_None_last in Hp. auto.
Qed.

Lemma lambda_prepare (text : string) :
  LambdaHandler.prepare text = EnhancedExtractor.prepare text.
Proof. reflexivity. Qed.

Lemma lambda_extract_elem_of (text skill : string) :
  skill ∈ LambdaHandler.extract_skills_from_text text
  <-> skill ∈ EnhancedExtractor.SKILL_TAXONOMY
      /\ standalone (of_string skill) None (EnhancedExtractor.prepare text).
Proof.
  unfold LambdaHandler.extract_skills_from_text. rewrite elem_of_sorted.
  rewrite lambda_prepare. unfold LambdaHandler.find_skills.
  pose proof (elem_of_found
                (fun s => search (LambdaHandler.skill_pattern s)
                            (EnhancedExtractor.prepare text))
                LambdaHandler.SKILL_TAXONOMY skill) as H.
  cbv beta in H. rewrite H.
  pose proof (search_lookaround (of_string skill)
                (EnhancedExtractor.prepare text)) as Hs.
  split; intros [Hin Hf]; (split; [exact Hin|]); apply Hs; exact Hf.
Qed.

Lemma taxonomy_first_word (skill : string) :
  skill ∈ EnhancedExtractor.SKILL_TAXONOMY ->
  word_at (head (of_string skill)) = true.
Proof.
  apply (taxonomy_forall (fun s => word_at (head (of_string s)))).
  vm_compute. reflexivity.
Qed.

(** X1: the extractor of [lambda_handler.py] reports a phrase exactly when
    the phrase is in the taxonomy and stands in the normalized and
    alias-substituted text as written, with no word character before it
    and none after it; its output is sorted in the code-point order, has
    no repetition, and is empty for a text without a word character. *)
Theorem lambda_extract_standalone_phrases (text skill : string) :
  (skill ∈ LambdaHandler.extract_skills_from_text text
   <-> skill ∈ LambdaHandler.SKILL_TAXONOMY
       /\ exists pre post,
           LambdaHandler.prepare text = pre ++ of_string skill ++ post
           /\ word_at (last pre) = false /\ word_at (head post) = false)
  /\ StronglySorted str_le (LambdaHandler.extract_skills_from_text text)
  /\ NoDup (LambdaHandler.extract_skills_from_text text)
  /\ (Forall (fun c => is_word c = false) (of_string text) ->
      LambdaHandler.extract_skills_from_text text = []).
Proof.
  split; [|split; [apply sorted_StronglySorted|split; [apply sorted_NoDup|]]].
  - pose proof (lambda_extract_elem_of text skill) as H.
    rewrite lambda_prepare. unfold standalone in H.
    split.
    + intros Hin. apply H in Hin as (Hin & pre & post & Ht & Hp & Hn).
      split; [exact Hin|]. exists pre, post.
      rewrite before_None_last in Hp. auto.
    + intros (Hin & pre & post & Ht & Hp & Hn). apply H.
      split; [exact Hin|]. exists pre, post.
      rewrite before_None_last. auto.
  - intros Hw. destruct (prepare_no_word text Hw) as [_ Hp].
    destruct (LambdaHandler.extract_skills_from_text text) as [|sk l] eqn:E;
      [reflexivity|exfalso].
    assert (Hin : sk ∈ LambdaHandler.extract_skills_from_text text)
      by (rewrite E; left).
    apply lambda_extract_elem_of in Hin as (Hin & pre & post & Ht & _).
    apply taxonomy_first_word in Hin.
    rewrite Ht in Hp. apply Forall_app in Hp as [_ Hp].
    apply Forall_app in Hp as [Hp _].
    destruct (of_string sk) as [|c0 L]; [discriminate|].
    apply Forall_cons in Hp as [Hc _]. cbn in Hin. congruence.
Qed.

End LambdaFacts.

(** ** Where the two extractors agree *)

Section Agreement.
Import Py Re ReSpec Checks.

Lemma separated_rejoin (toks : list str) :
  toks <> [] -> separated toks (rejoin toks).
Proof.
  induction toks as [|tok toks IH]; intros Hne; [contradiction|].
  destruct toks as [|tok2 toks].
  - constructor.
  - change (rejoin (tok :: tok2 :: toks))
      with (tok ++ [" "%char] ++ rejoin (tok2 :: toks)).
    constructor; [discriminate|repeat constructor|].
    apply IH. discriminate.
Qed.

Lemma phrase_occurs_one (w text : str) :
  phrase_occurs [w] text
  <-> exists pre post,
      text = pre ++ w ++ post
      /\ at_boundary (last pre) (head w) = true
      /\ at_boundary (last w) (head post) = true.
Proof.
  unfold phrase_occurs. split.
  - intros (pre & m & post & Ht & Hs & H1 & H2).
    apply separated_one in Hs as ->. eauto.
  - intros (pre & post & Ht & H1 & H2).
    exists pre, w, post. repeat split; auto. constructor.
Qed.

(** A phrase that stands by itself, and begins and ends with a word
    character, occurs as a whole word. *)
Lemma standalone_phrase (toks : list str) (w text : str) :
  separated toks w ->
  word_at (head w) = true -> word_at (last w) = true ->
  standalone w None text -> phrase_occurs toks text.
Proof.
  intros Hs Hh Hl (pre & post & -> & Hp & Hn).
  exists pre, w, post. rewrite before_None_last in Hp.
  unfold at_boundary. rewrite Hp, Hn, Hh, Hl. auto.
Qed.

Lemma taxonomy_plain (skill : string) :
  skill ∈ EnhancedExtractor.SKILL_TAXONOMY ->
  skill <> "c++"%string -> skill <> "c#"%string ->
  plain_phrase skill = true.
Proof.
  intros Hin H1 H2.
  pose proof (taxonomy_forall
                (fun s => String.eqb s "c++" || String.eqb s "c#"
                          || plain_phrase s)%bool) as H.
  cbv beta in H. specialize (H ltac:(vm_compute; reflexivity) skill Hin).
  apply orb_true_iff in H as [H|H]; [|exact H].
  apply orb_true_iff in H as [H|H]; apply String.eqb_eq in H; contradiction.
Qed.

Lemma plain_phrase_occurs (skill : string) (text : str) :
  plain_phrase skill = true ->
  standalone (of_string skill) None text ->
  phrase_occurs (split (of_string skill)) text.
Proof.
  unfold plain_phrase. cbv zeta. intros H Hs.
  apply andb_true_iff in H as [H Hl]. apply andb_true_iff in H as [H Hh].
  apply bool_decide_eq_true in H.
  apply (standalone_phrase _ (of_string skill)); auto.
  rewrite <- H at 2. apply separated_rejoin.
  intros E. rewrite E in H. cbn in H. rewrite <- H in Hh. discriminate.
Qed.

(** X2: every phrase other than "c++" and "c#" that the extractor of
    [lambda_handler.py] reports, the extractor of [enhanced_extractor.py]
    reports too; for a phrase of one token the converse holds as well, so
    on these the two copies agree. *)
Theorem lambda_within_enhanced (text skill : string) :
  skill <> "c++"%string -> skill <> "c#"%string ->
  (skill ∈ LambdaHandler.extract_skills_from_text text ->
   skill ∈ EnhancedExtractor.extract_resume_skills text)
  /\ (split (of_string skill) = [of_string skill] ->
      skill ∈ EnhancedExtractor.extract_resume_skills text ->
      skill ∈ LambdaHandler.extract_skills_from_text text).
Proof.
  intros H1 H2. split.
  - intros Hin. apply lambda_extract_elem_of in Hin as [Hin Hs].
    apply extract_elem_of. split; [exact Hin|].
    apply search_skill_pattern; [apply taxonomy_phrase_ok; exact Hin|].
    apply plain_phrase_occurs; [|exact Hs].
    apply taxonomy_plain; assumption.
  - intros Hone Hin. apply extract_elem_of in Hin as [Hin Hs].
    apply lambda_extract_elem_of. split; [exact Hin|].
    apply search_skill_pattern in Hs; [|apply taxonomy_phrase_ok; exact Hin].
    rewrite Hone in Hs.
    apply phrase_occurs_one in Hs as (pre & post & Ht & Hb1 & Hb2).
    pose proof (taxonomy_plain skill Hin H1 H2) as Hp.
    unfold plain_phrase in Hp. cbv zeta in Hp.
    apply andb_true_iff in Hp as [Hp Hl]. apply andb_true_iff in Hp as [_ Hh].
    exists pre, post. rewrite before_None_last.
    unfold at_boundary in Hb1, Hb2. rewrite Hh in Hb1. rewrite Hl in Hb2.
    split; [exact Ht|].
    split; [destruct (word_at (last pre))|destruct (word_at (head post))];
      cbn in *; congruence.
Qed.

Lemma lambda_within_enhanced_witness :
  "sql"%string <> "c++"%string /\ "sql"%string <> "c#"%string
  /\ ("sql"%string ∈ LambdaHandler.extract_skills_from_text "SQL and C++" ->
      "sql"%string ∈ EnhancedExtractor.extract_resume_skills "SQL and C++")
  /\ LambdaHandler.extract_skills_from_text "SQL and C++"
     = ["c"; "c++"; "sql"]%string
  /\ EnhancedExtractor.extract_resume_skills "SQL and C++"
     = ["c"; "sql"]%string.
Proof.
  assert (H1 : "sql"%string <> "c++"%string) by discriminate.
  assert (H2 : "sql"%string <> "c#"%string) by discriminate.
  split; [exact H1|]. split; [exact H2|].
  split; [exact (proj1 (lambda_within_enhanced "SQL and C++" "sql" H1 H2))|].
  split; vm_compute; reflexivity.
Defined.

(** X3: the extractor of [enhanced_extractor.py] reports "c++" (and
    likewise "c#") exactly when the phrase stands in the prepared text with
    no word character before it and a word character right after it; an
    occurrence followed by a space, by punctuation or by the end of the
    text is not reported. *)
Theorem enhanced_cpp_needs_word_after (text : string) :
  ("c++"%string ∈ EnhancedExtractor.extract_resume_skills text
   <-> exists pre post,
       EnhancedExtractor.prepare text = pre ++ of_string "c++" ++ post
       /\ word_at (last pre) = false /\ word_at (head post) = true)
  /\ ("c#"%string ∈ EnhancedExtractor.extract_resume_skills text
      <-> exists pre post,
          EnhancedExtractor.prepare text = pre ++ of_string "c#" ++ post
          /\ word_at (last pre) = false /\ word_at (head post) = true).
Proof.
  assert (Hgen : forall sk : string,
             sk ∈ EnhancedExtractor.SKILL_TAXONOMY ->
             split (of_string sk) = [of_string sk] ->
             word_at (head (of_string sk)) = true ->
             word_at (last (of_string sk)) = false ->
             sk ∈ EnhancedExtractor.extract_resume_skills text
             <-> exists pre post,
                 EnhancedExtractor.prepare text = pre ++ of_string sk ++ post
                 /\ word_at (last pre) = false
                 /\ word_at (head post) = true).
  { intros sk Hin Hone Hh Hl.
    pose proof (extract_elem_of text sk) as He.
    pose proof (search_skill_pattern (EnhancedExtractor.prepare text) sk
                  (taxonomy_phrase_ok sk Hin)) as Hs.
    rewrite Hone in Hs.
    pose proof (phrase_occurs_one (of_string sk)
                  (EnhancedExtractor.prepare text)) as Ho.
    unfold at_boundary in Ho. rewrite Hh, Hl in Ho.
    split.
    - intros H. apply He in H as [_ H]. apply Hs, Ho in H.
      destruct H as (pre & post & Ht & Hb1 & Hb2). exists pre, post.
      split; [exact Ht|].
      split; [destruct (word_at (last pre))|destruct (word_at (head post))];
        cbn in *; congruence.
    - intros (pre & post & Ht & Hb1 & Hb2). apply He.
      split; [exact Hin|]. apply Hs, Ho. exists pre, post.
      rewrite Hb1, Hb2. auto. }
  split; apply Hgen; try reflexivity;
    apply elem_of_taxonomy, (bool_decide_unpack _); vm_compute; exact I.
Qed.

End Agreement.

(** ** Whole words: the phrases that are found, and the two that are not *)

Section WholeWords.
Import Py Re ReSpec Checks EnhancedExtractor.

Lemma split_go_nonempty (s cur : str) :
  Forall (fun tok => tok <> []) (split_go cur s).
Proof.
  revert cur. induction s as [|c s IH]; intros cur; cbn [split_go].
  - destruct cur as [|x cur]; constructor; [|constructor].
    intros E. apply (f_equal (@length ascii)) in E.
    rewrite length_rev in E. discriminate.
  - destruct (is_space c); [|apply IH].
    destruct cur as [|x cur]; [apply IH|].
    constructor; [|apply IH].
    intros E. apply (f_equal (@length ascii)) in E.
    rewrite length_rev in E. discriminate.
Qed.

(** A run of tokens begins as its first token and ends as its last one,
    whatever whitespace separates them. *)
Lemma separated_ends (toks : list str) (m : str) :
  separated toks m -> Forall (fun tok => tok <> []) toks ->
  m <> [] /\ head m = head (rejoin toks) /\ last m = last (rejoin toks).
Proof.
  induction 1 as [tok|tok ws toks m Hne Hws Hs IH]; intros Hf.
  - apply Forall_cons in Hf as [Ht _]. auto.
  - apply Forall_cons in Hf as [Ht Hf].
    destruct (IH Hf) as (Hm & _ & Hl).
    destruct toks as [|tok2 toks]; [inversion Hs|].
    change (rejoin (tok :: tok2 :: toks))
      with (tok ++ [" "%char] ++ rejoin (tok2 :: toks)).
    assert (Hr : rejoin (tok2 :: toks) <> []).
    { intros E. rewrite E in Hl. destruct m; [contradiction|].
      rewrite last_cons in Hl. destruct (last m); discriminate. }
    split; [destruct tok; [contradiction|discriminate]|].
    split; [destruct tok; [contradiction|reflexivity]|].
    rewrite !app_assoc.
    destruct (exists_last Hm) as (m' & x & ->).
    destruct (exists_last Hr) as (r' & y & Er). rewrite Er in *.
    rewrite !app_assoc, !last_snoc. rewrite !last_snoc in Hl. exact Hl.
Qed.

(** For a phrase that begins and ends with a word character, the [\b] on
    its two sides says that no word character touches it. *)
Lemma plain_occurs_iff_stands (skill : string) (text : str) :
  plain_phrase skill = true ->
  phrase_occurs (split (of_string skill)) text
  <-> phrase_stands (split (of_string skill)) text.
Proof.
  unfold plain_phrase. cbv zeta. intros H.
  apply andb_true_iff in H as [H Hl]. apply andb_true_iff in H as [H Hh].
  apply bool_decide_eq_true in H.
  assert (Hb : forall m, separated (split (of_string skill)) m ->
                 word_at (head m) = true /\ word_at (last m) = true).
  { intros m Hs.
    destruct (separated_ends _ _ Hs (split_go_nonempty _ _)) as (_ & E1 & E2).
    rewrite E1, E2, H. auto. }
  unfold phrase_occurs, phrase_stands, at_boundary.
  split; intros (pre & m & post & Ht & Hs & H1 & H2);
    exists pre, m, post; destruct (Hb m Hs) as [E1 E2];
    rewrite E1, E2 in *;
    (split; [exact Ht|]); (split; [exact Hs|]);
    split; [destruct (word_at (last pre))|destruct (word_at (head post))
           |destruct (word_at (last pre))|destruct (word_at (head post))];
      cbn in *; congruence.
Qed.

(** C2 fails on the code.  In "i know c++" the phrase "c++" of the
    taxonomy stands as a whole word, no word character before it and none
    after it, and it is not in the output; likewise "c#" in "c# and sql".
    The [\b] that line 135 puts after the phrase asks for a word character
    after a phrase that ends in "+" or "#".  The copy of the extractor in
    [lambda_handler.py], with [(?<!\w)] and [(?!\w)] around the phrase,
    reports both. *)
Theorem free_standing_phrase_not_reported :
  "c++"%string ∈ SKILL_TAXONOMY
  /\ prepare "i know c++" = of_string "i know c++"
  /\ phrase_stands (split (of_string "c++")) (prepare "i know c++")
  /\ extract_resume_skills "i know c++" = ["c"]%string
  /\ LambdaHandler.extract_skills_from_text "i know c++"
     = ["c"; "c++"]%string
  /\ "c#"%string ∈ SKILL_TAXONOMY
  /\ prepare "c# and sql" = of_string "c# and sql"
  /\ phrase_stands (split (of_string "c#")) (prepare "c# and sql")
  /\ extract_resume_skills "c# and sql" = ["c"; "sql"]%string
  /\ LambdaHandler.extract_skills_from_text "c# and sql"
     = ["c"; "c#"; "sql"]%string.
Proof.
  split; [apply elem_of_taxonomy, (bool_decide_unpack _); vm_compute;
          exact I|].
  split; [vm_compute; reflexivity|].
  split.
  { exists (of_string "i know "), (of_string "c++"), [].
    split; [vm_compute; reflexivity|].
    split; [change (split (of_string "c++")) with [of_string "c++"];
            constructor|].
    split; vm_compute; reflexivity. }
  split; [vm_compute; reflexivity|].
  split; [vm_compute; reflexivity|].
  split; [apply elem_of_taxonomy, (bool_decide_unpack _); vm_compute;
          exact I|].
  split; [vm_compute; reflexivity|].
  split.
  { exists [], (of_string "c#"), (of_string " and sql").
    split; [vm_compute; reflexivity|].
    split; [change (split (of_string "c#")) with [of_string "c#"];
            constructor|].
    split; vm_compute; reflexivity. }
  split; vm_compute; reflexivity.
Qed.

(** X12: for every phrase of the taxonomy other than "c++" and "c#", the
    phrase is in the output exactly when its tokens stand in the prepared
    text one after the other, separated by whitespace, with no word
    character before the first token and none after the last; the output
    has no repetition. *)
Theorem plain_phrase_reported_iff_stands (text skill : string) :
  skill ∈ SKILL_TAXONOMY ->
  skill <> "c++"%string -> skill <> "c#"%string ->
  (skill ∈ extract_resume_skills text
   <-> phrase_stands (split (of_string skill)) (prepare text))
  /\ NoDup (extract_resume_skills text).
Proof.
  intros Hin H1 H2. split; [|apply sorted_NoDup].
  rewrite (extract_elem_of_occurs text skill Hin).
  apply plain_occurs_iff_stands, taxonomy_plain; assumption.
Qed.

Lemma plain_phrase_reported_iff_stands_witness :
  "data science"%string ∈ SKILL_TAXONOMY
  /\ "data science"%string <> "c++"%string
  /\ "data science"%string <> "c#"%string
  /\ ("data science"%string
        ∈ extract_resume_skills "Data  Science and data-science"
      <-> phrase_stands (split (of_string "data science"))
            (prepare "Data  Science and data-science"))
  /\ extract_resume_skills "Data  Science and data-science"
     = ["data science"]%string.
Proof.
  assert (H : "data science"%string ∈ SKILL_TAXONOMY)
    by (apply elem_of_taxonomy, (bool_decide_unpack _); vm_compute;
        exact I).
  assert (H1 : "data science"%string <> "c++"%string) by discriminate.
  assert (H2 : "data science"%string <> "c#"%string) by discriminate.
  split; [exact H|]. split; [exact H1|]. split; [exact H2|].
  split; [|vm_compute; reflexivity].
  exact (proj1 (plain_phrase_reported_iff_stands
                  "Data  Science and data-science" "data science" H H1 H2)).
Defined.

End WholeWords.

(** ** More on the scorer, in arithmetic without rounding *)

Section ScorerFacts.
Import Ranker App.
Local Open Scope Q_scope.

Lemma Q_compute_final_score (w0 w1 w2 w3 s k r p : Q) :
  0 < w0 + w1 + w2 + w3 ->
  compute_final_score s k r p (Some [w0; w1; w2; w3])
  = inr (w0 / py_sum [w0; w1; w2; w3] * clamp s
         + w1 / py_sum [w0; w1; w2; w3] * clamp k
         + w2 / py_sum [w0; w1; w2; w3] * clamp r
         + w3 / py_sum [w0; w1; w2; w3] * clamp p).
Proof.
  intros Hsum.
  apply (compute_final_score_normalized Q_pos_not_zero).
  apply Q_flt_iff. rewrite Q_py_sum4. exact Hsum.
Qed.

Lemma Q_clamp_mono (x y : Q) : x <= y -> clamp x <= clamp y.
Proof.
  intros Hxy.
  destruct (Q_clamp_cases x) as [[-> Hx]|[[-> Hx]|[-> [Hx0 Hx1]]]];
    destruct (Q_clamp_cases y) as [[-> Hy]|[[-> Hy]|[-> [Hy0 Hy1]]]];
    lra.
Qed.

Lemma Q_mult_le_l (a x y : Q) : 0 <= a -> x <= y -> a * x <= a * y.
Proof. intros Ha Hxy. nra. Qed.



(** X6: with weights that are not negative, the score does not go down
    when sub-scores go up. *)
Theorem final_score_monotone (w0 w1 w2 w3 s k r p s' k' r' p' : Q) :
  0 <= w0 -> 0 <= w1 -> 0 <= w2 -> 0 <= w3 -> 0 < w0 + w1 + w2 + w3 ->
  s <= s' -> k <= k' -> r <= r' -> p <= p' ->
  exists a b : Q,
    compute_final_score s k r p (Some [w0; w1; w2; w3]) = inr a
    /\ compute_final_score s' k' r' p' (Some [w0; w1; w2; w3]) = inr b
    /\ a <= b.
Proof.
  intros H0 H1 H2 H3 Hsum Hs Hk Hr Hp.
  eexists. eexists.
  split; [apply Q_compute_final_score; exact Hsum|].
  split; [apply Q_compute_final_score; exact Hsum|].
  assert (Ht : 0 < py_sum [w0; w1; w2; w3]) by (rewrite Q_py_sum4; exact Hsum).
  pose proof (Q_mult_le_l _ _ _ (Q_normalized_nonneg w0 _ H0 Ht)
                (Q_clamp_mono s s' Hs)).
  pose proof (Q_mult_le_l _ _ _ (Q_normalized_nonneg w1 _ H1 Ht)
                (Q_clamp_mono k k' Hk)).
  pose proof (Q_mult_le_l _ _ _ (Q_normalized_nonneg w2 _ H2 Ht)
                (Q_clamp_mono r r' Hr)).
  pose proof (Q_mult_le_l _ _ _ (Q_normalized_nonneg w3 _ H3 Ht)
                (Q_clamp_mono p p' Hp)).
  lra.
Qed.

Lemma final_score_monotone_witness :
  exists a b : Q,
    compute_final_score 0.2 0.5 0.6 0.5 (Some [0.55; 0.25; 0.10; 0.10])
    = inr a
    /\ compute_final_score 0.9 0.5 0.8 0.5 (Some [0.55; 0.25; 0.10; 0.10])
       = inr b
    /\ a <= b.
Proof.
  apply (final_score_monotone 0.55 0.25 0.10 0.10 0.2 0.5 0.6 0.5
           0.9 0.5 0.8 0.5); try discriminate; reflexivity.
Defined.

(** X7: the score written out in the "Find Matches" tab is the score of
    [compute_final_score] with its default weights taken on the clamped
    sub-scores; the two are equal when the four sub-scores lie in [0, 1],
    and for a negative similarity the tab's score is the lower one. *)
Theorem tab_score_is_default_score (s k r p : Q) :
  exists a : Q,
    compute_final_score s k r p None = inr a
    /\ a == final_score (clamp s) (clamp k) (clamp r) (clamp p)
    /\ (0 <= s <= 1 -> 0 <= k <= 1 -> 0 <= r <= 1 -> 0 <= p <= 1 ->
        a == final_score s k r p)
    /\ (s < 0 -> 0 <= k <= 1 -> 0 <= r <= 1 -> 0 <= p <= 1 ->
        final_score s k r p < a).
Proof.
  eexists.
  split; [apply (Q_compute_final_score 0.55 0.25 0.10 0.10); reflexivity|].
  assert (E : forall x y z t : Q,
             0.55 / py_sum [0.55; 0.25; 0.10; 0.10] * x
             + 0.25 / py_sum [0.55; 0.25; 0.10; 0.10] * y
             + 0.10 / py_sum [0.55; 0.25; 0.10; 0.10] * z
             + 0.10 / py_sum [0.55; 0.25; 0.10; 0.10] * t
             == final_score x y z t).
  { intros x y z t. unfold final_score. cbn [fadd fmul flit Arith_Q].
    rewrite Q_py_sum4. field. }
  split; [apply E|].
  pose proof (Q_clamp_spec s) as (Hs0 & Hs1 & Hs).
  pose proof (Q_clamp_spec k) as (_ & _ & Hk).
  pose proof (Q_clamp_spec r) as (_ & _ & Hr).
  pose proof (Q_clamp_spec p) as (_ & _ & Hp).
  split.
  - intros As Ak Ar Ap. rewrite E.
    unfold final_score. cbn [fadd fmul flit Arith_Q].
    rewrite (Hs As), (Hk Ak), (Hr Ar), (Hp Ap). reflexivity.
  - intros As Ak Ar Ap. rewrite E.
    unfold final_score. cbn [fadd fmul flit Arith_Q].
    rewrite (Hk Ak), (Hr Ar), (Hp Ap), (Hs0 ltac:(lra)). lra.
Qed.

(** X8: the score of a job in the "Find Matches" tab is defined for every
    input and lies between [0.55 * semantic + 0.08] and
    [0.55 * semantic + 0.40]: the popularity is the constant 0.5, the
    recency is at least 0.3 and the keyword score is at most 1.  With a
    similarity of at most 1 the score is at most 0.95. *)
Theorem tab_score_bounds (title : string) (semantic : Q)
    (resume_skills job_skills : list string)
    (posted_date : option (result Z)) :
  exists m : match_result,
    rank_job title semantic resume_skills job_skills posted_date = inr m
    /\ 0.55 * semantic + 0.08 <= score m <= 0.55 * semantic + 0.40
    /\ (semantic <= 1 -> score m <= 0.95)
    /\ mr_missing m = missing resume_skills job_skills
    /\ job_title m = title.
Proof.
  unfold rank_job. rewrite keyword_value. cbn [bind].
  eexists. split; [reflexivity|]. cbn [score mr_missing job_title].
  assert (Hk : 0 <= inject_Z (Z.of_nat (size (list_to_set resume_skills
                                                ∩ list_to_set job_skills
                                              : gset string)))
                    / inject_Z (Z.of_nat (Nat.max 1 (length resume_skills)))
               <= 1).
  { apply ratio_bounds; [|lia].
    pose proof (common_le_length resume_skills job_skills). lia. }
  assert (Hr : 0.3 <= recency posted_date <= 1).
  { unfold recency. destruct posted_date as [[e|d]|]; [split; discriminate| |split; discriminate].
    destruct (d <=? 1)%Z; [split; discriminate|].
    destruct (d <=? 7)%Z; [split; discriminate|].
    destruct (d <=? 30)%Z; split; discriminate. }
  unfold final_score, popularity. cbn [fadd fmul flit Arith_Q].
  repeat split; try lra.
Qed.

End ScorerFacts.

(** ** [normalize_text] *)

Section NormalizeFacts.
Import Py Re Checks.

Lemma norm_char_idem (c : ascii) : norm_char (norm_char c) = norm_char c.
Proof. destruct c as [[] [] [] [] [] [] [] []]; vm_compute; reflexivity. Qed.

Lemma norm_char_range (c : ascii) :
  between 65 90 (norm_char c) = false
  /\ norm_char c <> "-"%char /\ norm_char c <> "_"%char.
Proof.
  destruct c as [[] [] [] [] [] [] [] []]; vm_compute;
    repeat split; congruence.
Qed.

Lemma of_string_to_string (l : str) :
  of_string (string_of_list_ascii l) = l.
Proof. apply list_ascii_of_string_of_list_ascii. Qed.

(** X9: on a text whose code points are all in U+0000..U+00FF,
    [normalize_text] works character by character: it keeps the length of
    the text, leaves no capital letter A-Z, no hyphen and no underscore,
    and applying it twice is the same as applying it once; so the
    extractor gives the same list on such a text and on its normalized
    form.  (Beyond U+00FF [str.lower] can change the length of a text.) *)
Theorem normalize_text_invariants (text : string) :
  let normalized := EnhancedExtractor.normalize_text (of_string text) in
  length normalized = length (of_string text)
  /\ Forall (fun c => between 65 90 c = false
                      /\ c <> "-"%char /\ c <> "_"%char) normalized
  /\ EnhancedExtractor.normalize_text normalized = normalized
  /\ EnhancedExtractor.extract_resume_skills (string_of_list_ascii normalized)
     = EnhancedExtractor.extract_resume_skills text.
Proof.
  cbv zeta. rewrite !normalize_text_map.
  split; [apply length_map|].
  split.
  { apply Forall_forall. intros c Hc. apply list_elem_of_In in Hc.
    apply in_map_iff in Hc as (c' & <- & _). apply norm_char_range. }
  assert (Hidem : map norm_char (map norm_char (of_string text))
                  = map norm_char (of_string text)).
  { rewrite map_map. apply map_ext. intros c. apply norm_char_idem. }
  split; [exact Hidem|].
  unfold EnhancedExtractor.extract_resume_skills, EnhancedExtractor.prepare.
  rewrite of_string_to_string, !normalize_text_map, Hidem. reflexivity.
Qed.

End NormalizeFacts.

(** ** The upload tab *)

Section UploadFacts.
Import Py App.

Lemma startswith_app (s prefix : str) :
  startswith s prefix = true <-> exists rest, s = prefix ++ rest.
Proof.
  revert s. induction prefix as [|p prefix IH]; intros s; cbn.
  - split; [intros _; exists s; reflexivity|intros _; destruct s; reflexivity].
  - destruct s as [|c s]; cbn.
    + split; [discriminate|intros [rest H]; discriminate].
    + rewrite andb_true_iff, IH. split.
      * intros [Hc [rest ->]]. apply Ascii.eqb_eq in Hc as ->. eauto.
      * intros [rest H]. injection H as -> ->.
        rewrite Ascii.eqb_refl. eauto.
Qed.

Lemma endswith_app (s suffix : str) :
  endswith s suffix = true <-> exists front, s = front ++ suffix.
Proof.
  unfold endswith. rewrite startswith_app. split.
  - intros [rest H]. exists (rev rest).
    rewrite <- (rev_involutive s), H, rev_app_distr, rev_involutive.
    reflexivity.
  - intros [front ->]. exists (rev front). apply rev_app_distr.
Qed.

(** X10: [validate_file] accepts a file exactly when it has at most
    10 * 1024 * 1024 bytes and its lower-cased name ends in ".pdf" or
    ".docx"; the size is judged first, so a file that is too large is
    refused for its size whatever its name; and an accepted file that the
    upload tab does not hand to the PDF extractor has a name ending in
    ".docx". *)
Theorem validate_file_accepts (file_bytes : list Byte.byte) (filename : str) :
  (validate_file file_bytes filename = (true, "OK"%string)
   <-> (Z.of_nat (length file_bytes) <= 10 * 1024 * 1024)%Z
       /\ exists front ext,
           lower filename = front ++ ext
           /\ (ext = of_string ".pdf" \/ ext = of_string ".docx"))
  /\ ((10 * 1024 * 1024 < Z.of_nat (length file_bytes))%Z ->
      validate_file file_bytes filename
      = (false, "File too large (max 10MB)"%string))
  /\ (fst (validate_file file_bytes filename) = true ->
      choose_extractor filename = DocxExtractor ->
      exists front, lower filename = front ++ of_string ".docx").
Proof.
  unfold validate_file, choose_extractor.
  destruct (Z.ltb_spec (10 * 1024 * 1024) (Z.of_nat (length file_bytes)))
    as [Hbig|Hsmall].
  - split; [|split].
    + split; [discriminate|]. intros [Hle _]. lia.
    + reflexivity.
    + discriminate.
  - destruct (endswith (lower filename) (of_string ".pdf")) eqn:Epdf;
      destruct (endswith (lower filename) (of_string ".docx")) eqn:Edocx;
      cbn [orb negb fst].
    + apply endswith_app in Epdf as [front Hf].
      split; [|split; [intros; lia|discriminate]].
      split; [intros _|reflexivity]. split; [lia|eauto].
    + apply endswith_app in Epdf as [front Hf].
      split; [|split; [intros; lia|discriminate]].
      split; [intros _|reflexivity]. split; [lia|eauto].
    + apply endswith_app in Edocx as [front Hf].
      split; [|split; [intros; lia|eauto]].
      split; [intros _|reflexivity]. split; [lia|eauto].
    + split; [|split; [intros; lia|discriminate]].
      split; [discriminate|].
      intros (_ & front & ext & Hf & [->| ->]).
      * assert (H : endswith (lower filename) (of_string ".pdf") = true)
          by (apply endswith_app; eauto). congruence.
      * assert (H : endswith (lower filename) (of_string ".docx") = true)
          by (apply endswith_app; eauto). congruence.
Qed.

End UploadFacts.

(** ** The ranking of the tab *)

Section FloatOrder.
Import SpecFloat.

Ltac sf_compare :=
  repeat match goal with
         | H : context [Z.compare ?a ?b] |- _ =>
             destruct (Z.compare_spec a b); try subst
         | |- context [Z.compare ?a ?b] =>
             destruct (Z.compare_spec a b); try subst
         | H : context [Pos.compare ?a ?b] |- _ =>
             destruct (Pos.compare_spec a b); try subst
         | |- context [Pos.compare ?a ?b] =>
             destruct (Pos.compare_spec a b); try subst
         end;
  cbn in *; try reflexivity; try discriminate; try lia.

Ltac sf_shapes :=
  repeat match goal with
         | x : spec_float |- _ => destruct x as [[]|[]| |[] ? ?]
         end;
  unfold SFleb, SFltb, SFeqb, SFcompare;
  change (PosDef.Pos.compare_cont Eq) with Pos.compare;
  intros; try reflexivity; try discriminate; sf_compare.

Lemma SFleb_trans x y z :
  SFleb x y = true -> SFleb y z = true -> SFleb x z = true.
Proof. sf_shapes. Qed.

Lemma SFleb_total x y :
  SFeqb x x = true -> SFeqb y y = true ->
  SFltb x y = false -> SFleb y x = true.
Proof. sf_shapes. Qed.

Lemma SFleb_ltb_trans x y z :
  SFleb x y = true -> SFltb y z = true -> SFltb x z = true.
Proof. sf_shapes. Qed.

Lemma SFltb_eqb_trans x y z :
  SFltb x y = true -> SFeqb y z = true -> SFltb x z = true.
Proof. sf_shapes. Qed.

Lemma SFltb_neq x y : SFltb x y = true -> SFeqb x y = false.
Proof. sf_shapes. Qed.

(** The comparisons of binary64, on numbers that are not NaN. *)
Lemma float_leb_trans (x y z : float) :
  (x <=? y)%float = true -> (y <=? z)%float = true -> (x <=? z)%float = true.
Proof. rewrite !FloatAxioms.leb_spec. apply SFleb_trans. Qed.

Lemma float_leb_total (x y : float) :
  is_nan x = false -> is_nan y = false ->
  (x <? y)%float = false -> (y <=? x)%float = true.
Proof.
  unfold is_nan. rewrite !negb_false_iff.
  rewrite !FloatAxioms.eqb_spec, FloatAxioms.ltb_spec, FloatAxioms.leb_spec.
  apply SFleb_total.
Qed.

Lemma float_leb_ltb_trans (x y z : float) :
  (x <=? y)%float = true -> (y <? z)%float = true -> (x <? z)%float = true.
Proof.
  rewrite FloatAxioms.leb_spec, !FloatAxioms.ltb_spec. apply SFleb_ltb_trans.
Qed.

Lemma float_ltb_eqb_trans (x y z : float) :
  (x <? y)%float = true -> (y =? z)%float = true -> (x <? z)%float = true.
Proof.
  rewrite FloatAxioms.eqb_spec, !FloatAxioms.ltb_spec. apply SFltb_eqb_trans.
Qed.

Lemma float_ltb_neq (x y : float) :
  (x <? y)%float = true -> (x =? y)%float = false.
Proof. rewrite FloatAxioms.eqb_spec, FloatAxioms.ltb_spec. apply SFltb_neq. Qed.

End FloatOrder.

Section RankingFacts.
Import Ranker App.
Context {A : Type} (key : A -> float).

Lemma insert_by_score_Permutation r l : insert_by_score key r l ≡ₚ r :: l.
Proof.
  induction l as [|x l IH]; cbn; [reflexivity|].
  destruct (key x <? key r)%float; [reflexivity|].
  rewrite IH. apply Permutation_swap.
Qed.

Lemma sort_by_score_Permutation results :
  sort_by_score key results ≡ₚ results.
Proof.
  unfold sort_by_score.
  assert (H : forall placed,
             fold_left (fun placed r => insert_by_score key r placed)
               results placed ≡ₚ placed ++ results).
  { induction results as [|r results IH]; intros placed; cbn.
    - rewrite app_nil_r. reflexivity.
    - rewrite IH, insert_by_score_Permutation.
      rewrite (Permutation_middle placed results r). reflexivity. }
  apply (H []).
Qed.

Lemma insert_by_score_sorted r l :
  is_nan (key r) = false -> Forall (fun x => is_nan (key x) = false) l ->
  StronglySorted (by_score key) l ->
  StronglySorted (by_score key) (insert_by_score key r l).
Proof.
  intros Hr Hl Hs. revert Hl.
  induction Hs as [|x l Hs IH Hx]; intros Hl; cbn; [repeat constructor|].
  apply Forall_cons in Hl as [Hnx Hl].
  destruct (key x <? key r)%float eqn:E.
  - constructor; [constructor; assumption|].
    constructor; [apply float_ltb_leb, E|].
    eapply Forall_impl; [exact Hx|]. unfold by_score. intros y Hy.
    eapply float_leb_trans; [exact Hy|]. apply float_ltb_leb, E.
  - constructor; [exact (IH Hl)|].
    apply Forall_forall. intros y Hy.
    rewrite insert_by_score_Permutation in Hy.
    apply elem_of_cons in Hy as [->|Hy].
    + apply float_leb_total; assumption.
    + rewrite Forall_forall in Hx. auto.
Qed.

Lemma sort_by_score_sorted results :
  Forall (fun x => is_nan (key x) = false) results ->
  StronglySorted (by_score key) (sort_by_score key results).
Proof.
  unfold sort_by_score.
  assert (H : forall placed,
             Forall (fun x => is_nan (key x) = false) results ->
             Forall (fun x => is_nan (key x) = false) placed ->
             StronglySorted (by_score key) placed ->
             StronglySorted (by_score key)
               (fold_left (fun placed r => insert_by_score key r placed)
                  results placed)).
  { induction results as [|r results IH]; intros placed Hn Hp Hs; cbn;
      [exact Hs|].
    apply Forall_cons in Hn as [Hr Hn].
    apply IH; [exact Hn| |apply insert_by_score_sorted; assumption].
    rewrite insert_by_score_Permutation. constructor; assumption. }
  intros Hn. apply H; [exact Hn|constructor|constructor].
Qed.

(** Entries with the same score keep the order they had. *)
Lemma insert_by_score_stable (q : float) r l :
  StronglySorted (by_score key) l ->
  with_score key q (insert_by_score key r l) = with_score key q (l ++ [r]).
Proof.
  unfold with_score.
  induction 1 as [|x l Hs IH Hx]; [reflexivity|].
  cbn [insert_by_score app].
  destruct (key x <? key r)%float eqn:E.
  - change (x :: l ++ [r]) with ((x :: l) ++ [r]).
    rewrite List.filter_app.
    set (f := fun y : A => (key y =? q)%float) in *.
    change (List.filter f (r :: x :: l))
      with (if f r then r :: List.filter f (x :: l)
            else List.filter f (x :: l)).
    change (List.filter f [r]) with (if f r then [r] else []).
    destruct (f r) eqn:Er; subst f; cbv beta in *.
    + assert (Hnone : List.filter (fun y => (key y =? q)%float) (x :: l)
                      = []).
      { assert (Hall : Forall (fun y => (key y <? q)%float = true) (x :: l)).
        { constructor; [eapply float_ltb_eqb_trans; eassumption|].
          eapply Forall_impl; [exact Hx|]. unfold by_score. intros y Hy.
          eapply float_ltb_eqb_trans; [|exact Er].
          eapply float_leb_ltb_trans; eassumption. }
        clear -Hall. induction Hall as [|y l' Hy _ IH']; [reflexivity|].
        cbn [List.filter]. rewrite IH', (float_ltb_neq _ _ Hy). reflexivity. }
      rewrite Hnone. reflexivity.
    + rewrite app_nil_r. reflexivity.
  - cbn [List.filter]. rewrite IH. reflexivity.
Qed.

Lemma sort_by_score_stable (q : float) results :
  Forall (fun x => is_nan (key x) = false) results ->
  with_score key q (sort_by_score key results) = with_score key q results.
Proof.
  unfold sort_by_score.
  assert (H : forall placed,
             Forall (fun x => is_nan (key x) = false) results ->
             Forall (fun x => is_nan (key x) = false) placed ->
             StronglySorted (by_score key) placed ->
             with_score key q
               (fold_left (fun placed r => insert_by_score key r placed)
                  results placed)
             = with_score key q (placed ++ results)).
  { induction results as [|r results IH]; intros placed Hn Hp Hs;
      cbn [fold_left].
    - rewrite app_nil_r. reflexivity.
    - apply Forall_cons in Hn as [Hr Hn].
      rewrite IH;
        [|exact Hn
         |rewrite insert_by_score_Permutation; constructor; assumption
         |apply insert_by_score_sorted; assumption].
      unfold with_score in *. rewrite !List.filter_app.
      fold (with_score key q (insert_by_score key r placed)).
      rewrite (insert_by_score_stable q r placed Hs).
      unfold with_score. rewrite List.filter_app, <- app_assoc.
      change (r :: results) with ([r] ++ results).
      rewrite (List.filter_app _ [r] results). reflexivity. }
  intros Hn. apply H; [exact Hn|constructor|constructor].
Qed.

(** X11: when no score is NaN, the ranking of the tab keeps the 20 best
    results: [top] has min(20, n) entries, in the order of their scores
    from the highest down; together with the results left out it holds
    the results as they were, no result left out scores higher than one
    that is kept, and results of equal score keep the order in which they
    were computed.  The scores are binary64 numbers under the comparisons
    of [float]. *)
Theorem top_matches_best (results : list A) :
  Forall (fun r => is_nan (key r) = false) results ->
  length (top_matches key results) = Nat.min 20 (length results)
  /\ StronglySorted (by_score key) (top_matches key results)
  /\ top_matches key results ++ drop TOP_K (sort_by_score key results)
     ≡ₚ results
  /\ (forall kept left_out,
        kept ∈ top_matches key results ->
        left_out ∈ drop TOP_K (sort_by_score key results) ->
        (key left_out <=? key kept)%float = true)
  /\ (forall q, with_score key q (sort_by_score key results)
                = with_score key q results).
Proof.
  intros Hn. unfold top_matches.
  pose proof (sort_by_score_sorted results Hn) as Hs.
  pose proof (sort_by_score_Permutation results) as Hp.
  split.
  { rewrite length_take, (Permutation_length Hp). unfold TOP_K. lia. }
  rewrite <- (take_drop TOP_K (sort_by_score key results)) in Hs.
  split; [eapply StronglySorted_app_1_l; exact Hs|].
  split; [rewrite take_drop; exact Hp|].
  split; [|intros q; apply sort_by_score_stable; exact Hn].
  intros kept left_out Hk Hl.
  exact (StronglySorted_app_1_elem_of _ _ _ _ _ Hs Hk Hl).
Qed.

End RankingFacts.

Section RankingExample.
Import App.

Lemma top_matches_best_witness :
  Forall (fun r : string * float => is_nan (snd r) = false)
    [("analyst", 0.5); ("engineer", 0.75); ("tester", 0.5);
     ("architect", 0.75)]%float%string
  /\ top_matches snd
       [("analyst", 0.5); ("engineer", 0.75); ("tester", 0.5);
        ("architect", 0.75)]%float%string
     = [("engineer", 0.75); ("architect", 0.75); ("analyst", 0.5);
        ("tester", 0.5)]%float%string
  /\ StronglySorted (by_score snd)
       (top_matches snd
          [("analyst", 0.5); ("engineer", 0.75); ("tester", 0.5);
           ("architect", 0.75)]%float%string).
Proof.
  assert (H : Forall (fun r : string * float => is_nan (snd r) = false)
                [("analyst", 0.5); ("engineer", 0.75); ("tester", 0.5);
                 ("architect", 0.75)]%float%string)
    by (repeat constructor).
  split; [exact H|].
  split; [vm_compute; reflexivity|].
  exact (proj1 (proj2 (top_matches_best snd _ H))).
Defined.

End RankingExample.

(** ** The skill-gap heat map *)

Section HeatMapFacts.
Import Ranker App.












End HeatMapFacts.
